(** * OpenAPI generator of JerkyTreats/llm: type reflection and document assembly

    Shallow embedding of [cmd/generate-openapi/analyzer] (the [spec.go] part
    that builds paths, operations, request bodies and response tables, and the
    reflection engine of [generator.go]) together with the properties stated
    about it.

    Go strings are byte sequences, modelled by [string] (a list of 8-bit
    [ascii]).  Go maps are [gmap]s, nil-able pointers are [option]s. *)

From Stdlib Require Import Ascii String NArith List Lia.
From stdpp Require Import base option list gmap strings fin_maps pretty.

Local Open Scope string_scope.
Local Open Scope list_scope.
Set Warnings "-register-all".

(* ===================================================================== *)
(** ** The part of Go's [strings] package the analyzer calls *)
(* ===================================================================== *)

(** Case mapping and title casing of text that is not pure ASCII goes through
    Go's Unicode tables.  They are kept abstract: every statement below holds
    for any such tables. *)
Class GoUnicode := {
  unicode_ToUpper : string → string;   (* strings.Map(unicode.ToUpper, s) *)
  unicode_ToLower : string → string;   (* strings.Map(unicode.ToLower, s) *)
  unicode_Title   : string → string    (* strings.Title on non-ASCII text *)
}.

Module GoStrings.

Definition byte_in (lo hi : N) (c : ascii) : bool :=
  ((lo <=? N_of_ascii c) && (N_of_ascii c <=? hi))%N.

Definition is_lower (c : ascii) : bool := byte_in 97 122 c.
Definition is_upper (c : ascii) : bool := byte_in 65 90 c.
Definition is_digit (c : ascii) : bool := byte_in 48 57 c.

(** [c < utf8.RuneSelf] *)
Definition is_ascii (c : ascii) : bool := (N_of_ascii c <? 128)%N.

Definition upper_byte (c : ascii) : ascii :=
  if is_lower c then ascii_of_N (N_of_ascii c - 32) else c.

Definition lower_byte (c : ascii) : ascii :=
  if is_upper c then ascii_of_N (N_of_ascii c + 32) else c.

Fixpoint all_bytes (p : ascii → bool) (s : string) : bool :=
  match s with
  | EmptyString => true
  | String c s' => p c && all_bytes p s'
  end.

Fixpoint map_bytes (f : ascii → ascii) (s : string) : string :=
  match s with
  | EmptyString => EmptyString
  | String c s' => String (f c) (map_bytes f s')
  end.

(** [strings.ToUpper]: the ASCII fast path maps bytes, anything else goes
    through the Unicode tables. *)
Definition ToUpper `{GoUnicode} (s : string) : string :=
  if all_bytes is_ascii s then map_bytes upper_byte s else unicode_ToUpper s.

(** [strings.ToLower]. *)
Definition ToLower `{GoUnicode} (s : string) : string :=
  if all_bytes is_ascii s then map_bytes lower_byte s else unicode_ToLower s.

(** [isSeparator] of [strings.Title], on an ASCII rune: letters, digits and
    the underscore are not separators. *)
Definition isSeparator (c : ascii) : bool :=
  negb (is_digit c || is_lower c || is_upper c || (N_of_ascii c =? 95)%N).

(** The closure of [strings.Title]: [prev] is the previous rune. *)
Fixpoint title_from (prev : ascii) (s : string) : string :=
  match s with
  | EmptyString => EmptyString
  | String c s' =>
      String (if isSeparator prev then upper_byte c else c) (title_from c s')
  end.

(** [strings.Title]: [prev] starts as a space. *)
Definition Title `{GoUnicode} (s : string) : string :=
  if all_bytes is_ascii s then title_from " "%char s else unicode_Title s.

Fixpoint has_prefix (p s : string) : bool :=
  match p, s with
  | EmptyString, _ => true
  | String a p', String b s' => if Ascii.eqb a b then has_prefix p' s' else false
  | String _ _, EmptyString => false
  end.

(** [strings.Contains]. *)
Fixpoint Contains (s sub : string) : bool :=
  has_prefix sub s ||
  match s with
  | EmptyString => false
  | String _ s' => Contains s' sub
  end.

Fixpoint rev_string (acc s : string) : string :=
  match s with
  | EmptyString => acc
  | String c s' => rev_string (String c acc) s'
  end.

(** Scanner of [strings.Split] for a non-empty separator: [cur] is the
    piece being read (reversed), [skip] the bytes of a separator that was
    just matched and still has to be passed over. *)
Fixpoint split_scan (sep : string) (skip : nat) (cur : string) (s : string)
  : list string :=
  match s with
  | EmptyString => [rev_string "" cur]
  | String c s' =>
      match skip with
      | S k => split_scan sep k cur s'
      | O =>
          if has_prefix sep s
          then rev_string "" cur :: split_scan sep (String.length sep - 1) "" s'
          else split_scan sep 0 (String c cur) s'
      end
  end.

(** [strings.Split(s, sep)] with [sep] non-empty, as at both call sites
    (["/"] and ["-"]).  With an empty separator Go explodes [s] into UTF-8
    sequences; here that is byte by byte, which agrees on ASCII text. *)
Definition Split (s sep : string) : list string :=
  match sep with
  | EmptyString => (λ c, String c "") <$> list_ascii_of_string s
  | _ => split_scan sep 0 "" s
  end.

Fixpoint mem_byte (c : ascii) (cutset : string) : bool :=
  match cutset with
  | EmptyString => false
  | String d cs => Ascii.eqb c d || mem_byte c cs
  end.

Fixpoint trim_left (cutset s : string) : string :=
  match s with
  | EmptyString => EmptyString
  | String c s' => if mem_byte c cutset then trim_left cutset s' else s
  end.

(** [strings.Trim(s, cutset)] for an ASCII cutset (the call site passes
    ["/"]): leading and trailing bytes of the cutset are removed. *)
Definition Trim (s cutset : string) : string :=
  rev_string "" (trim_left cutset (rev_string "" (trim_left cutset s))).

(** [strings.Join]. *)
Fixpoint Join (elems : list string) (sep : string) : string :=
  match elems with
  | [] => ""
  | [a] => a
  | a :: rest => a +:+ sep +:+ Join rest sep
  end.

(** [strings.HasPrefix] is [has_prefix]; [strings.TrimPrefix(s, prefix)]
    drops the prefix when it is there. *)
Fixpoint drop_bytes (n : nat) (s : string) : string :=
  match n, s with
  | S n', String _ s' => drop_bytes n' s'
  | _, _ => s
  end.

Definition TrimPrefix (s prefix : string) : string :=
  if has_prefix prefix s then drop_bytes (String.length prefix) s else s.

End GoStrings.

(* ===================================================================== *)
(** ** Go types as [reflect.Type] shows them *)
(* ===================================================================== *)

Inductive BasicKind :=
| KBool
| KInt | KInt8 | KInt16 | KInt32 | KInt64
| KUint | KUint8 | KUint16 | KUint32 | KUint64 | KUintptr
| KFloat32 | KFloat64
| KComplex64 | KComplex128
| KString
| KUnsafePointer.

(** A struct type is named by its package path and its name; its fields are
    found in the declarations in scope (see [TypeEnv]), which is what lets a
    struct mention itself. *)
Inductive GoType :=
| TBasic (k : BasicKind)
| TPtr (elem : GoType)
| TSlice (elem : GoType)
| TArray (len : nat) (elem : GoType)
| TMap (key elem : GoType)
| TInterface
| TChan (elem : GoType)
| TFunc
| TStruct (pkg name : string).

#[export] Instance BasicKind_eq_dec : EqDecision BasicKind.
Proof. solve_decision. Defined.

#[export] Instance GoType_eq_dec : EqDecision GoType.
Proof. solve_decision. Defined.

(** [Generator.getTypeName] lives in [generator.go]; [spec.go] only calls it.
    The assembler is stated for any naming function. *)
Class TypeNaming := getTypeName : GoType → string.

(* ===================================================================== *)
(** ** [internal/api/types.RouteInfo] *)
(* ===================================================================== *)

(** The [Handler] field is a function value the generator never reads. *)
Record RouteInfo := {
  Method       : string;
  Path         : string;
  RequestType  : option GoType;     (* nil when absent *)
  ResponseType : option GoType;
  Module_      : string;
  Summary      : string
}.

(* ===================================================================== *)
(** ** Schemas held in [Generator.typeSchemas] *)
(* ===================================================================== *)

(** The values of [map[string]interface{}] the reflector builds. *)
Inductive TypeSchema :=
| SPrim (type : string) (format : option string)
| SArray (items : TypeSchema)
| SMapAny                                   (* object, additionalProperties: true *)
| SMapOf (values : TypeSchema)              (* object, additionalProperties: schema *)
| SObject (properties : list (string * TypeSchema)) (required : list string)
| SOpaque                                   (* object, nothing else known *)
| SRef (ref : string).                      (* $ref *)

(* ===================================================================== *)
(** ** [spec.go]: the document structure *)
(* ===================================================================== *)

Record Info := {
  Info_Title : string; Info_Description : string; Info_Version : string }.

Record Server := { Server_URL : string; Server_Description : string }.

Record SchemaRef := { Ref : string }.

Record MediaTypeObject := { Schema : SchemaRef }.

(** A nil [Content] map reads as the empty map. *)
Record Response := {
  Response_Description : string;
  Response_Content     : gmap string MediaTypeObject
}.

Record RequestBody := {
  RequestBody_Description : string;
  RequestBody_Required    : bool;
  RequestBody_Content     : gmap string MediaTypeObject
}.

Record Operation := {
  Tags          : list string;
  Op_Summary    : string;
  Op_Description : string;
  OperationID   : string;
  Op_RequestBody : option RequestBody;
  Responses     : gmap string Response
}.

Record PathItem := {
  Get    : option Operation;
  Post   : option Operation;
  Put    : option Operation;
  Delete : option Operation
}.

Record Components := { Schemas : gmap string TypeSchema }.

Record OpenAPISpec := {
  OpenAPI    : string;
  Spec_Info  : Info;
  Servers    : list Server;
  Paths      : gmap string PathItem;
  Spec_Components : Components
}.

Record Generator := {
  routes      : list RouteInfo;
  typeSchemas : gmap string TypeSchema
}.

(** [yaml.Marshal] of gopkg.in/yaml.v3: the encoded text or an error, whose
    [Error()] text is kept. *)
Class YamlEncoder := yaml_Marshal : OpenAPISpec → string + string.

Definition nl : string := String (ascii_of_N 10) "".

Module Spec.
Section Spec.
Context `{GoUnicode} `{TypeNaming} `{YamlEncoder}.

Import GoStrings.

Definition jsonContent (ref : string) : gmap string MediaTypeObject :=
  {[ "application/json" := {| Schema := {| Ref := ref |} |} ]}.

Definition errorResponse (description : string) : Response :=
  {| Response_Description := description;
     Response_Content := jsonContent "#/components/schemas/ErrorResponse" |}.

(** [buildResponses] *)
Definition buildResponses (route : RouteInfo) : gmap string Response :=
  let responses : gmap string Response := ∅ in
  let responses :=
    match ResponseType route with
    | Some t =>
        let typeName := getTypeName t in
        <["200" := {| Response_Description := "Success";
                      Response_Content :=
                        jsonContent ("#/components/schemas/" +:+ typeName) |}]>
          responses
    | None =>
        <["200" := {| Response_Description := "Success";
                      Response_Content := ∅ |}]> responses
    end in
  let responses := <["400" := errorResponse "Bad Request"]> responses in
  let responses := <["500" := errorResponse "Internal Server Error"]> responses in
  if String.eqb (ToUpper (Method route)) "GET" then responses
  else <["422" := errorResponse "Unprocessable Entity"]> responses.

(** [buildRequestBody]; Go panics in [getTypeName] on a nil request type,
    which is [None] here. *)
Definition buildRequestBody (route : RouteInfo) : option RequestBody :=
  match RequestType route with
  | None => None
  | Some t =>
      let typeName := getTypeName t in
      Some {| RequestBody_Description := "Request body for " +:+ Summary route;
              RequestBody_Required := true;
              RequestBody_Content :=
                jsonContent ("#/components/schemas/" +:+ typeName) |}
  end.

(** The verb prefix chosen by the [switch] of [generateOperationID]. *)
Definition methodPrefix (route : RouteInfo) : string :=
  let m := ToUpper (Method route) in
  if String.eqb m "GET" then
    (if Contains (Path route) "list" then "list" else "get")
  else if String.eqb m "POST" then
    (if Contains (Path route) "add" || Contains (Path route) "create"
     then "create" else "post")
  else if String.eqb m "PUT" then "update"
  else if String.eqb m "DELETE" then "delete"
  else ToLower (Method route).

(** First loop of [generateOperationID]: path segments, each split on
    hyphens; empty segments are skipped. *)
Fixpoint collectParts (pathParts : list string) : list string :=
  match pathParts with
  | [] => []
  | pathPart :: rest =>
      if String.eqb pathPart "" then collectParts rest
      else (Split pathPart "-" ++ collectParts rest)%list
  end.

(** Second loop: [i] is the index in [allParts]; empty parts are skipped,
    the part at index 0 is taken as it is, the others are title-cased. *)
Fixpoint addPathParts (i : nat) (allParts : list string) : list string :=
  match allParts with
  | [] => []
  | part :: rest =>
      if String.eqb part "" then addPathParts (S i) rest
      else (if Nat.eqb i 0 then part else Title part) :: addPathParts (S i) rest
  end.

(** [generateOperationID] *)
Definition generateOperationID (route : RouteInfo) : string :=
  let pathParts := Split (Trim (Path route) "/") "/" in
  let allParts := collectParts pathParts in
  let operationParts := [methodPrefix route] in
  let operationParts := (operationParts ++ addPathParts 0 allParts)%list in
  Join operationParts "".

(** [buildOperation]; the pointer it returns is never nil. *)
Definition buildOperation (route : RouteInfo) : Operation :=
  {| Tags := [Module_ route];
     Op_Summary := Summary route;
     Op_Description := "";
     OperationID := generateOperationID route;
     Op_RequestBody :=
       match RequestType route with
       | Some _ =>
           if negb (String.eqb (ToUpper (Method route)) "GET")
           then buildRequestBody route else None
       | None => None
       end;
     Responses := buildResponses route |}.

Definition emptyPathItem : PathItem :=
  {| Get := None; Post := None; Put := None; Delete := None |}.

(** The [switch] of [buildPaths]: no case for other methods. *)
Definition setSlot (pathItem : PathItem) (method : string) (operation : Operation)
  : PathItem :=
  let m := ToUpper method in
  if String.eqb m "GET" then
    {| Get := Some operation; Post := Post pathItem;
       Put := Put pathItem; Delete := Delete pathItem |}
  else if String.eqb m "POST" then
    {| Get := Get pathItem; Post := Some operation;
       Put := Put pathItem; Delete := Delete pathItem |}
  else if String.eqb m "PUT" then
    {| Get := Get pathItem; Post := Post pathItem;
       Put := Some operation; Delete := Delete pathItem |}
  else if String.eqb m "DELETE" then
    {| Get := Get pathItem; Post := Post pathItem;
       Put := Put pathItem; Delete := Some operation |}
  else pathItem.

(** One iteration of the loop of [buildPaths]. *)
Definition addRoute (paths : gmap string PathItem) (route : RouteInfo)
  : gmap string PathItem :=
  let pathItem :=
    match paths !! Path route with
    | Some it => it
    | None => emptyPathItem
    end in
  let operation := buildOperation route in
  <[Path route := setSlot pathItem (Method route) operation]> paths.

(** [buildPaths], on the routes of the generator. *)
Definition buildPathsOf (rs : list RouteInfo) : gmap string PathItem :=
  foldl addRoute ∅ rs.

Definition buildPaths (g : Generator) : gmap string PathItem :=
  buildPathsOf (routes g).

Definition header : string :=
  "# Auto-generated OpenAPI specification" +:+ nl +:+
  "# DO NOT EDIT MANUALLY - Changes will be overwritten" +:+ nl +:+ nl.

Definition document (g : Generator) : OpenAPISpec :=
  {| OpenAPI := "3.0.3";
     Spec_Info :=
       {| Info_Title := "LLM API";
          Info_Description :=
            "Auto-generated API documentation for LLM service with zero-maintenance updates";
          Info_Version := "1.0.0" |};
     Servers := [ {| Server_URL := "http://localhost:8080";
                     Server_Description := "Development server" |} ];
     Paths := buildPaths g;
     Spec_Components := {| Schemas := typeSchemas g |} |}.

(** [buildOpenAPISpec] *)
Definition buildOpenAPISpec (g : Generator) : string :=
  match yaml_Marshal (document g) with
  | inr err => "# Error generating YAML: " +:+ err +:+ nl
  | inl yamlData => header +:+ yamlData
  end.

End Spec.
End Spec.

(* ===================================================================== *)
(** ** [generator.go]: the type reflector and its schema cache *)
(* ===================================================================== *)

(** Modelled from the spec: what the reflector of [generator.go] (not part
    of the sources at hand) reads of a struct field: its declared name, its
    type and its naming annotation (the [json] tag): an explicit external
    name, the "excluded" mark ([json:"-"]) and the "omit if empty" mark. *)
Record StructField := {
  field_Name      : string;
  field_Type      : GoType;
  tag_name        : option string;
  tag_excluded    : bool;
  tag_omitempty   : bool
}.

Record StructDecl := {
  decl_pkg    : string;
  decl_name   : string;
  decl_fields : list StructField
}.

(** The struct declarations in scope. *)
Abbreviation TypeEnv := (list StructDecl).
Abbreviation Cache := (gmap string TypeSchema).

Definition is_decl (pkg name : string) (d : StructDecl) : bool :=
  String.eqb (decl_pkg d) pkg && String.eqb (decl_name d) name.

(** [t.NumField()] / [t.Field(i)]: a struct that is not declared has no
    fields. *)
Definition fieldsOf (env : TypeEnv) (pkg name : string) : list StructField :=
  match find (is_decl pkg name) env with
  | Some d => decl_fields d
  | None => []
  end.

Fixpoint typeSize (t : GoType) : nat :=
  match t with
  | TPtr e | TSlice e | TArray _ e | TChan e => S (typeSize e)
  | TMap k v => S (typeSize k + typeSize v)
  | _ => 1
  end.

Definition maxFieldSize (env : TypeEnv) : nat :=
  foldr Nat.max 0
    (flat_map (λ d, map (λ f, typeSize (field_Type f)) (decl_fields d)) env).

Definition isPointer (t : GoType) : bool :=
  match t with TPtr _ => true | _ => false end.

(** Modelled from the spec: the well-known temporal type of rule 2,
    [time.Time]. *)
Definition isTime (pkg name : string) : bool :=
  String.eqb pkg "time" && String.eqb name "Time".

(** Modelled from the spec: the externally visible name of a field (rule 6):
    the annotation's name if there is one, the declared name otherwise. *)
Definition externalName (f : StructField) : string :=
  match tag_name f with
  | Some n => n
  | None => field_Name f
  end.

(** The reference token of a named schema, as [spec.go] writes it. *)
Definition schemaRef (typeName : string) : string :=
  "#/components/schemas/" +:+ typeName.

(** Modelled from the spec: [properties[name] = schema] on the
    ordered-by-declaration mapping of section 3: a name already there keeps
    its place and takes the new schema. *)
Fixpoint setProperty (name : string) (s : TypeSchema)
    (properties : list (string * TypeSchema)) : list (string * TypeSchema) :=
  match properties with
  | [] => [(name, s)]
  | (n, s0) :: rest =>
      if String.eqb n name then (n, s) :: rest
      else (n, s0) :: setProperty name s rest
  end.

(** Modelled from the spec: the filter of the required set (rule 6): not
    marked omit-if-empty and not of pointer type. *)
Definition isRequired (f : StructField) : bool :=
  negb (tag_omitempty f || isPointer (field_Type f)).

Module Reflector.
Section Reflector.
Context `{TypeNaming} (env : TypeEnv).

(** Modelled from the spec: the schema of a basic kind (rule 3:
    all integer widths, signed or unsigned, give integer; the float widths
    give number; bool and string their own), and the opaque object for
    the kinds no rule matches. *)
Definition basicSchema (k : BasicKind) : TypeSchema :=
  match k with
  | KBool => SPrim "boolean" None
  | KInt | KInt8 | KInt16 | KInt32 | KInt64
  | KUint | KUint8 | KUint16 | KUint32 | KUint64 => SPrim "integer" None
  | KFloat32 | KFloat64 => SPrim "number" None
  | KString => SPrim "string" None
  | KUintptr | KComplex64 | KComplex128 | KUnsafePointer => SOpaque
  end.

(** Modelled from the spec: the field loop of rule 6 of the Type Reflector
    ([generator.go] is not part of the sources at hand).  [rec] reflects
    a field's type; an excluded field is skipped, the others are inserted
    under their external name, and appended to [required] unless marked
    omit-if-empty or of pointer type. *)
Fixpoint reflectFields (rec : Cache → GoType → option (TypeSchema * Cache))
    (cache : Cache) (fields : list StructField)
    (properties : list (string * TypeSchema)) (required : list string)
  : option (list (string * TypeSchema) * list string * Cache) :=
  match fields with
  | [] => Some (properties, required, cache)
  | f :: rest =>
      if tag_excluded f then reflectFields rec cache rest properties required
      else
        match rec cache (field_Type f) with
        | None => None
        | Some (s, cache') =>
            let name := externalName f in
            reflectFields rec cache' rest
              (setProperty name s properties)
              (if isRequired f then required ++ [name] else required)
        end
  end.

(** Modelled from the spec: the Type Reflector with its Type Schema Cache
    (sections 4.1 and 4.2), [generateTypeSchema] of [generator.go], which
    is not part of the sources at hand.  [rec] stands for the recursive
    call.  The rules are tried in the spec's priority order.  For a struct
    the cache is asked first: a name already there (completed or reserved)
    gives a reference; otherwise the name is reserved with a placeholder,
    the fields are reflected, and the completed schema is stored under the
    reserved name. *)
Definition reflectType (rec : Cache → GoType → option (TypeSchema * Cache))
    (cache : Cache) (t : GoType) : option (TypeSchema * Cache) :=
  match t with
  | TPtr e => rec cache e
  | TStruct pkg name =>
      if isTime pkg name then Some (SPrim "string" (Some "date-time"), cache)
      else
        let typeName := getTypeName t in
        match cache !! typeName with
        | Some _ => Some (SRef (schemaRef typeName), cache)
        | None =>
            let cache := <[typeName := SOpaque]> cache in
            match reflectFields rec cache (fieldsOf env pkg name) [] [] with
            | None => None
            | Some (properties, required, cache) =>
                let schema := SObject properties required in
                Some (schema, <[typeName := schema]> cache)
            end
        end
  | TBasic k => Some (basicSchema k, cache)
  | TSlice e | TArray _ e =>
      match rec cache e with
      | None => None
      | Some (items, cache) => Some (SArray items, cache)
      end
  | TMap (TBasic KString) TInterface => Some (SMapAny, cache)
  | TMap (TBasic KString) v =>
      match rec cache v with
      | None => None
      | Some (values, cache) => Some (SMapOf values, cache)
      end
  | TMap _ _ | TInterface | TChan _ | TFunc => Some (SOpaque, cache)
  end.

(** Modelled from the spec: the recursion of the Type Reflector, bounded:
    [None] is "out of fuel", that is, the reflection did not end within
    [fuel] nested calls. *)
Fixpoint reflect (fuel : nat) (cache : Cache) (t : GoType)
  : option (TypeSchema * Cache) :=
  match fuel with
  | O => None
  | S fuel' => reflectType (reflect fuel') cache t
  end.

(** Nested calls that always suffice: the depth of the type, and for each
    declared struct one entry plus the depth of its deepest field. *)
Definition fuelFor (t : GoType) : nat :=
  typeSize t + length env * S (maxFieldSize env).

(** Modelled from the spec: [generateTypeSchema] of [generator.go], the
    reflector run with the nested calls that always suffice. *)
Definition generateTypeSchema (cache : Cache) (t : GoType)
  : option (TypeSchema * Cache) :=
  reflect (fuelFor t) cache t.

(** Modelled from the spec: the schema pass over the routes
    ([generateSchemas]): every distinct request and response type is
    reflected once and stored under its name. *)
Definition resolveInto (cache : Cache) (ot : option GoType) : option Cache :=
  match ot with
  | None => Some cache
  | Some t =>
      let typeName := getTypeName t in
      match cache !! typeName with
      | Some _ => Some cache
      | None =>
          match generateTypeSchema cache t with
          | None => None
          | Some (schema, cache) => Some (<[typeName := schema]> cache)
          end
      end
  end.

(** Modelled from the spec: [generateSchemas] of [generator.go]: the request
    type, then the response type, of each route in turn. *)
Fixpoint generateSchemas (cache : Cache) (rs : list RouteInfo) : option Cache :=
  match rs with
  | [] => Some cache
  | route :: rest =>
      match resolveInto cache (RequestType route) with
      | None => None
      | Some cache =>
          match resolveInto cache (ResponseType route) with
          | None => None
          | Some cache => generateSchemas cache rest
          end
      end
  end.

(** Modelled from the spec: the Standard Schema Provider
    ([addStandardSchemas]): the error envelope with its three required
    properties. *)
Definition errorResponseSchema : TypeSchema :=
  SObject [("error", SPrim "string" None);
           ("message", SPrim "string" None);
           ("status", SPrim "integer" None)]
          ["error"; "message"; "status"].

(** Modelled from the spec: [addStandardSchemas] of [generator.go]: the
    error envelope is stored under its fixed name. *)
Definition addStandardSchemas (cache : Cache) : Cache :=
  <["ErrorResponse" := errorResponseSchema]> cache.

(** Modelled from the spec: the Document Assembler's entry point
    ([GenerateSpec], section 4.5), on the routes read from the registry.
    [inr] is the error returned to the caller, [inl] the document text;
    [None] only if reflection ran out of fuel. *)
Definition GenerateSpec `{GoUnicode} `{YamlEncoder} (registered : list RouteInfo)
  : option (string + string) :=
  match registered with
  | [] => Some (inr "no routes discovered")
  | _ =>
      match generateSchemas ∅ registered with
      | None => None
      | Some cache =>
          let g := {| routes := registered;
                      typeSchemas := addStandardSchemas cache |} in
          Some (inl (Spec.buildOpenAPISpec g))
      end
  end.

End Reflector.
End Reflector.

(** Modelled from the spec: [getTypeName] of [generator.go] as the table of
    [TestGetTypeName] shows it: a struct gives its bare name, a sequence the
    element's name followed by [Array], a basic type its kind. *)
Definition kindName (k : BasicKind) : string :=
  match k with
  | KBool => "bool"
  | KInt => "int" | KInt8 => "int8" | KInt16 => "int16"
  | KInt32 => "int32" | KInt64 => "int64"
  | KUint => "uint" | KUint8 => "uint8" | KUint16 => "uint16"
  | KUint32 => "uint32" | KUint64 => "uint64" | KUintptr => "uintptr"
  | KFloat32 => "float32" | KFloat64 => "float64"
  | KComplex64 => "complex64" | KComplex128 => "complex128"
  | KString => "string"
  | KUnsafePointer => "unsafe.Pointer"
  end.

(** Modelled from the spec: [getTypeName] of [generator.go] on the shapes of
    [TestGetTypeName]; the other shapes print as Go's [Type.String]. *)
Fixpoint shortTypeName (t : GoType) : string :=
  match t with
  | TBasic k => kindName k
  | TPtr e => shortTypeName e
  | TSlice e | TArray _ e => shortTypeName e +:+ "Array"
  | TMap k v => "map[" +:+ shortTypeName k +:+ "]" +:+ shortTypeName v
  | TInterface => "interface {}"
  | TChan e => "chan " +:+ shortTypeName e
  | TFunc => "func()"
  | TStruct _ name => name
  end.

(** Concrete collaborators for closed examples: identity Unicode tables
    (never reached on ASCII text), the naming above, and an encoder that
    prints nothing but a fixed body. *)
Definition asciiOnly : GoUnicode :=
  {| unicode_ToUpper := λ s, s; unicode_ToLower := λ s, s; unicode_Title := λ s, s |}.

Definition shortNames : TypeNaming := shortTypeName.

Definition fixedEncoder (body : string) : YamlEncoder := λ _, inl body.

Definition failingEncoder (msg : string) : YamlEncoder := λ _, inr msg.

(* ===================================================================== *)
(** ** What the paths table holds, stated independently of the loop *)
(* ===================================================================== *)

Module PathsSpec.
Section PathsSpec.
Context `{GoUnicode} `{TypeNaming}.

Import GoStrings.

(** Methods are compared upper-cased, as every [switch] of [spec.go] does. *)
Definition isMethod (m : string) (route : RouteInfo) : bool :=
  String.eqb (ToUpper (Method route)) m.

Definition supported (route : RouteInfo) : bool :=
  isMethod "GET" route || isMethod "POST" route ||
  isMethod "PUT" route || isMethod "DELETE" route.

Definition onPath (p : string) (route : RouteInfo) : bool :=
  String.eqb (Path route) p.

Definition matchesSlot (m p : string) (route : RouteInfo) : bool :=
  onPath p route && isMethod m route.

(** The operation of the last route declared for method [m] on path [p]. *)
Definition lastOp (m p : string) (rs : list RouteInfo) : option Operation :=
  last (Spec.buildOperation <$> List.filter (matchesSlot m p) rs).

Definition slotsOf (p : string) (rs : list RouteInfo) : PathItem :=
  {| Get := lastOp "GET" p rs; Post := lastOp "POST" p rs;
     Put := lastOp "PUT" p rs; Delete := lastOp "DELETE" p rs |}.

Definition operationCount (item : PathItem) : nat :=
  length (omap id [Get item; Post item; Put item; Delete item]).

End PathsSpec.
End PathsSpec.

(* ===================================================================== *)
(** ** Measures for the recursion of the reflector *)
(* ===================================================================== *)

Abbreviation rec_type := (Cache → GoType → option (TypeSchema * Cache)).

Module ReflectorSpec.
Section ReflectorSpec.
Context `{TypeNaming} (env : TypeEnv).

Definition declKey (d : StructDecl) : string :=
  getTypeName (TStruct (decl_pkg d) (decl_name d)).

Definition isFree (cache : Cache) (d : StructDecl) : bool :=
  bool_decide (cache !! declKey d = None).

(** The declared structs whose name is not in the cache yet. *)
Definition unreserved (cache : Cache) : nat :=
  length (List.filter (isFree cache) env).

(** [fuel] nested calls are enough for [t] with cache [c]: the depth of
    [t], and for each struct still to be entered one call plus the depth
    of the deepest field. *)
Definition fits (c : Cache) (t : GoType) (fuel : nat) : Prop :=
  (typeSize t + unreserved c * S (maxFieldSize env) ≤ fuel)%nat.

(** The fields that are not excluded, in declaration order. *)
Definition included (fields : list StructField) : list StructField :=
  List.filter (λ f, negb (tag_excluded f)) fields.

(** Names in order of first appearance. *)
Definition addName (names : list string) (n : string) : list string :=
  if bool_decide (n ∈ names) then names else names ++ [n].

Definition firstOccurrences (names : list string) : list string :=
  foldl addName [] names.

(** The shapes no rule of the reflector matches. *)
Definition unmatched (t : GoType) : bool :=
  match t with
  | TBasic (KUintptr | KComplex64 | KComplex128 | KUnsafePointer) => true
  | TInterface | TChan _ | TFunc => true
  | TMap (TBasic KString) _ => false
  | TMap _ _ => true
  | _ => false
  end.

Definition asArray (r : TypeSchema * Cache) : TypeSchema * Cache :=
  (SArray r.1, r.2).

Definition asMapOf (r : TypeSchema * Cache) : TypeSchema * Cache :=
  (SMapOf r.1, r.2).

(** A pointer, to any depth, to [t]. *)
Fixpoint pointsTo (t : GoType) (ft : GoType) : bool :=
  bool_decide (ft = t) ||
  match ft with
  | TPtr e => pointsTo t e
  | _ => false
  end.

End ReflectorSpec.

(** A reflection step never drops a cache entry. *)
Definition rec_grows (rec : rec_type) : Prop :=
  ∀ c t s c', rec c t = Some (s, c') → dom c ⊆ dom c'.

(** [rec2] answers whatever [rec1] answers. *)
Definition rec_below (rec1 rec2 : rec_type) : Prop :=
  ∀ c t r, rec1 c t = Some r → rec2 c t = Some r.

End ReflectorSpec.

(** A route with nothing but a method and a path. *)
Definition route0 (m p : string) : RouteInfo :=
  {| Method := m; Path := p; RequestType := None; ResponseType := None;
     Module_ := ""; Summary := "" |}.

(* ===================================================================== *)
(** ** The types and routes of the test files *)
(* ===================================================================== *)

Module Examples.

Definition tagged (name : string) (t : GoType) (ext : string) (omitempty : bool)
  : StructField :=
  {| field_Name := name; field_Type := t; tag_name := Some ext;
     tag_excluded := false; tag_omitempty := omitempty |}.

Definition TestRequest : GoType := TStruct "analyzer" "TestRequest".
Definition TestResponse : GoType := TStruct "analyzer" "TestResponse".
Definition CircularStruct : GoType := TStruct "analyzer" "CircularStruct".
Definition TaggedStruct : GoType := TStruct "analyzer" "TaggedStruct".

Definition TestRequest_fields : list StructField :=
  [ tagged "Name" (TBasic KString) "name" false;
    tagged "Count" (TBasic KInt) "count" false;
    tagged "Enabled" (TBasic KBool) "enabled" false;
    tagged "OptionalVal" (TPtr (TBasic KString)) "optional_val" true ].

Definition TestResponse_fields : list StructField :=
  [ tagged "ID" (TBasic KInt) "id" false;
    tagged "Message" (TBasic KString) "message" false;
    tagged "Timestamp" (TStruct "time" "Time") "timestamp" false;
    tagged "Data" (TSlice (TBasic KString)) "data" false ].

Definition CircularStruct_Name : StructField :=
  tagged "Name" (TBasic KString) "name" false.

Definition CircularStruct_Self : StructField :=
  tagged "Self" (TPtr CircularStruct) "self" true.

(** [json:"-"] on [ExcludedField], no tag on [NoTagField]. *)
Definition TaggedStruct_fields : list StructField :=
  [ tagged "IncludedField" (TBasic KString) "included_field" false;
    tagged "OmitEmptyField" (TPtr (TBasic KString)) "omit_empty" true;
    {| field_Name := "ExcludedField"; field_Type := TBasic KString;
       tag_name := None; tag_excluded := true; tag_omitempty := false |};
    tagged "RequiredField" (TBasic KString) "required_field" false;
    {| field_Name := "NoTagField"; field_Type := TBasic KString;
       tag_name := None; tag_excluded := false; tag_omitempty := false |} ].

Definition testEnv : TypeEnv :=
  [ {| decl_pkg := "analyzer"; decl_name := "TestRequest";
       decl_fields := TestRequest_fields |};
    {| decl_pkg := "analyzer"; decl_name := "TestResponse";
       decl_fields := TestResponse_fields |};
    {| decl_pkg := "analyzer"; decl_name := "CircularStruct";
       decl_fields := [CircularStruct_Name; CircularStruct_Self] |};
    {| decl_pkg := "analyzer"; decl_name := "TaggedStruct";
       decl_fields := TaggedStruct_fields |} ].

Definition listUsers : RouteInfo :=
  {| Method := "GET"; Path := "/users"; RequestType := None;
     ResponseType := Some (TSlice TestResponse);
     Module_ := "users"; Summary := "List users" |}.

Definition createUser : RouteInfo :=
  {| Method := "POST"; Path := "/users"; RequestType := Some TestRequest;
     ResponseType := Some TestResponse;
     Module_ := "users"; Summary := "Create user" |}.

Definition health : RouteInfo :=
  {| Method := "GET"; Path := "/health"; RequestType := None;
     ResponseType := Some (TMap (TBasic KString) TInterface);
     Module_ := "health"; Summary := "Health check" |}.

(** The routes of [TestBuildPaths]. *)
Definition testRoutes : list RouteInfo := [listUsers; createUser; health].

Definition testGenerator : Generator :=
  {| routes := testRoutes; typeSchemas := ∅ |}.

(** A route with a method that has no slot. *)
Definition patchItems : RouteInfo :=
  {| Method := "PATCH"; Path := "/items"; RequestType := Some TestRequest;
     ResponseType := None; Module_ := "items"; Summary := "Patch item" |}.

End Examples.

(* ===================================================================== *)
(** ** [internal/docs]: the documentation handler and its routes *)
(* ===================================================================== *)

(** What the handlers read of an [*http.Request]: [r.TLS != nil] is
    [Req_TLS]; the header map holds canonical keys. *)
Record Request := {
  Req_Method : string;
  URL_Path   : string;
  Req_Host   : string;
  Req_TLS    : bool;
  Req_Header : gmap string (list string)
}.

(** What a handler does to its [http.ResponseWriter]: one of the three
    library calls that answer for it, or headers, status and body written
    by hand. *)
Inductive Reply :=
| http_Error (error : string) (code : nat)
| http_Redirect (url : string) (code : nat)
| http_ServeFile (name : string)
| Written (header : gmap string (list string)) (statusCode : nat) (body : string).

(** [os.Stat] as the handlers use it: found, [os.IsNotExist], or another
    error. *)
Inductive StatResult := StatFound | StatNotExist | StatFailed.

(** The file system and [filepath.Join] of the standard library. *)
Class FileSystem := {
  os_Stat       : string → StatResult;
  os_ReadFile   : string → string + string;
  filepath_Join : string → string → string
}.

(** [internal/config]. *)
Class Config := {
  config_GetString : string → string;
  config_GetInt    : string → Z
}.

(** The literal text of the HTML template of [generateSwaggerHTML] around
    its three [%s] verbs; the text next to the third verb is written out in
    [generateSwaggerHTML]. *)
Class SwaggerTemplate := {
  tpl_before_title : string;
  tpl_before_theme : string;
  tpl_before_url   : string;
  tpl_after_url    : string
}.

Record SwaggerConfig := {
  Swagger_Enabled  : bool;
  Swagger_Path     : string;
  Swagger_SpecPath : string;
  Swagger_UITitle  : string;
  Swagger_Theme    : string
}.

Record DocsHandler := { swaggerConfig : SwaggerConfig }.

Module Docs.
Section Docs.
Context `{GoUnicode} `{FileSystem} `{Config} `{SwaggerTemplate}.

Import GoStrings.

(** [NewDocsHandler]; it never returns an error. *)
Definition NewDocsHandler : DocsHandler :=
  {| swaggerConfig :=
       {| Swagger_Enabled := true;
          Swagger_Path := "/swagger";
          Swagger_SpecPath := "/docs/openapi.yaml";
          Swagger_UITitle := "LLM API Documentation";
          Swagger_Theme := "dark" |} |}.

(** [Header.Get] on a canonical key: the first value, or the empty string. *)
Definition Header_Get (h : gmap string (list string)) (key : string) : string :=
  match h !! key with
  | Some (v :: _) => v
  | _ => ""
  end.

(** [Header().Set] *)
Definition Header_Set (key value : string) (h : gmap string (list string))
  : gmap string (list string) :=
  <[key := [value]]> h.

Definition indent8 : string := "        ".
Definition indent12 : string := "            ".

Definition darkThemeCSS : string :=
  nl +:+ indent8 +:+ "body {" +:+
  nl +:+ indent12 +:+ "background: #1f1f1f !important;" +:+
  nl +:+ indent8 +:+ "}" +:+
  nl +:+ indent8 +:+ ".swagger-ui {" +:+
  nl +:+ indent12 +:+ "filter: invert(88%) hue-rotate(180deg);" +:+
  nl +:+ indent8 +:+ "}" +:+
  nl +:+ indent8 +:+ ".swagger-ui .microlight {" +:+
  nl +:+ indent12 +:+ "filter: invert(100%) hue-rotate(180deg);" +:+
  nl +:+ indent8 +:+ "}".

(** [getThemeCSS] *)
Definition getThemeCSS (h : DocsHandler) : string :=
  if String.eqb (ToLower (Swagger_Theme (swaggerConfig h))) "dark"
  then darkThemeCSS else "".

(** The fallback of [generateSwaggerHTML] when the request has no host. *)
Definition fallbackHost : string :=
  let serverHost := config_GetString "server.host" in
  let serverPort := config_GetInt "server.port" in
  if String.eqb serverHost "0.0.0.0" || String.eqb serverHost ""
  then "localhost:" +:+ pretty serverPort
  else serverHost +:+ ":" +:+ pretty serverPort.

(** [host] of [generateSwaggerHTML] *)
Definition requestHost (r : Request) : string :=
  if String.eqb (Req_Host r) "" then fallbackHost else Req_Host r.

(** [isHTTPS] of [generateSwaggerHTML] *)
Definition isHTTPS (r : Request) : bool :=
  Req_TLS r ||
  String.eqb (Header_Get (Req_Header r) "X-Forwarded-Proto") "https" ||
  String.eqb (Header_Get (Req_Header r) "X-Forwarded-Scheme") "https" ||
  String.eqb (ToLower (Header_Get (Req_Header r) "X-Forwarded-Ssl")) "on".

(** [baseURL] of [generateSwaggerHTML] *)
Definition baseURL (r : Request) : string :=
  if isHTTPS r then "https://" +:+ requestHost r
  else "http://" +:+ requestHost r.

(** [generateSwaggerHTML]: the template with the title, the theme and the
    base URL in the place of its verbs. *)
Definition generateSwaggerHTML (h : DocsHandler) (r : Request) : string :=
  tpl_before_title +:+ Swagger_UITitle (swaggerConfig h) +:+
  tpl_before_theme +:+ getThemeCSS h +:+
  tpl_before_url +:+ "url: '" +:+ baseURL r +:+ "/docs/openapi.yaml'," +:+
  tpl_after_url.

(** [ServeSwaggerUI] *)
Definition ServeSwaggerUI (h : DocsHandler) (r : Request) : Reply :=
  if negb (String.eqb (Req_Method r) "GET")
  then http_Error "Method not allowed" 405
  else
    let html := generateSwaggerHTML h r in
    Written (Header_Set "Content-Type" "text/html; charset=utf-8" ∅) 200 html.

(** [ServeOpenAPISpec] *)
Definition ServeOpenAPISpec (h : DocsHandler) (r : Request) : Reply :=
  if negb (String.eqb (Req_Method r) "GET")
  then http_Error "Method not allowed" 405
  else
    let specPath := "docs/api/openapi.yaml" in
    match os_Stat specPath with
    | StatNotExist => http_Error "OpenAPI specification not found" 404
    | _ =>
        match os_ReadFile specPath with
        | inr _ => http_Error "Failed to read OpenAPI specification" 500
        | inl content =>
            Written (Header_Set "Access-Control-Allow-Origin" "*"
                       (Header_Set "Content-Type" "application/x-yaml" ∅))
                    200 content
        end
    end.

(** [ServeDocs] *)
Definition ServeDocs (h : DocsHandler) (r : Request) : Reply :=
  if negb (String.eqb (Req_Method r) "GET")
  then http_Error "Method not allowed" 405
  else
    let requestPath := TrimPrefix (URL_Path r) "/docs" in
    if String.eqb requestPath "" || String.eqb requestPath "/"
    then http_Redirect "/swagger" 302
    else if Contains requestPath ".."
    then http_Error "Invalid path" 400
    else
      let filePath := filepath_Join "docs" (TrimPrefix requestPath "/") in
      match os_Stat filePath with
      | StatNotExist => http_Error "File not found" 404
      | _ => http_ServeFile filePath
      end.

End Docs.



End Docs.

(* ===================================================================== *)
(** ** Notions used to state further properties of the assembler *)
(* ===================================================================== *)

Module RouteSpec.
Section RouteSpec.
Context `{GoUnicode}.

Import GoStrings.

(** What [buildPaths] files a route under. *)
Definition routeKey (r : RouteInfo) : string * string :=
  (Path r, ToUpper (Method r)).

End RouteSpec.

Definition withPath (p : string) (r : RouteInfo) : RouteInfo :=
  {| Method := Method r; Path := p; RequestType := RequestType r;
     ResponseType := ResponseType r; Module_ := Module_ r; Summary := Summary r |}.

Definition withMethod (m : string) (r : RouteInfo) : RouteInfo :=
  {| Method := m; Path := Path r; RequestType := RequestType r;
     ResponseType := ResponseType r; Module_ := Module_ r; Summary := Summary r |}.

(** The bytes that are neither a slash nor a hyphen. *)
Definition partByte (c : ascii) : bool :=
  negb (Ascii.eqb c "/") && negb (Ascii.eqb c "-").

Definition notByte (d c : ascii) : bool := negb (Ascii.eqb c d).

(** Requests and collaborators for closed examples. *)
Definition getRequest (path host : string) : Request :=
  {| Req_Method := "GET"; URL_Path := path; Req_Host := host;
     Req_TLS := false; Req_Header := ∅ |}.


Definition oneFile (name content : string) : FileSystem :=
  {| os_Stat := λ p, if String.eqb p name then StatFound else StatNotExist;
     os_ReadFile := λ p, if String.eqb p name then inl content else inr "no such file";
     filepath_Join := λ a b, a +:+ "/" +:+ b |}.

Definition defaultConfig : Config :=
  {| config_GetString := λ _, "0.0.0.0"; config_GetInt := λ _, 8080%Z |}.

Definition otherConfig : Config :=
  {| config_GetString := λ _, "llm.internal"; config_GetInt := λ _, 443%Z |}.

Definition plainTemplate : SwaggerTemplate :=
  {| tpl_before_title := "<title>"; tpl_before_theme := "</title><style>";
     tpl_before_url := "</style><script>"; tpl_after_url := "</script>" |}.

End RouteSpec.

(* ===================================================================== *)
(** * Properties of [spec.go] *)
(* ===================================================================== *)

Section SpecFacts.
Context `{GoUnicode} `{TypeNaming} `{YamlEncoder}.

Import GoStrings Spec PathsSpec.

Lemma eqb_false_ne (a b : string) : String.eqb a b = false ↔ a ≠ b.
Proof. apply String.eqb_neq. Qed.

Lemma jsonContent_lookup (ref : string) :
  jsonContent ref !! "application/json" = Some {| Schema := {| Ref := ref |} |}.
Proof. unfold jsonContent. apply lookup_singleton_eq. Qed.

(** *** Operation identifiers *)

(** C2, as the code has it: the identifiers of the five example routes.
    The first path fragment is appended as it stands, so the last example
    reads [createapiV1...], with a lower-case [a]; the other four are the
    strings listed. *)
Theorem generateOperationID_examples :
  generateOperationID (route0 "GET" "/health") = "gethealth" ∧
  generateOperationID (route0 "POST" "/add-record") = "createaddRecord" ∧
  generateOperationID (route0 "PUT" "/update-user") = "updateupdateUser" ∧
  generateOperationID (route0 "DELETE" "/remove-item") = "deleteremoveItem" ∧
  generateOperationID (route0 "POST" "/api/v1/user-management/create-admin")
    = "createapiV1UserManagementCreateAdmin".
Proof. repeat split; vm_compute; reflexivity. Qed.

(** *** Response tables *)

Lemma buildResponses_422 (route : RouteInfo) :
  buildResponses route !! "422" =
    if String.eqb (ToUpper (Method route)) "GET" then None
    else Some (errorResponse "Unprocessable Entity").
Proof.
  unfold buildResponses.
  destruct (String.eqb (ToUpper (Method route)) "GET").
  - destruct (ResponseType route); by simplify_map_eq.
  - by simplify_map_eq.
Qed.

(** C3: the response table of every route has a 200 entry described as a
    success, whose body references the response type's named schema when
    one is declared and is absent otherwise; a 400 and a 500 entry that
    reference the ErrorResponse schema; a 422 entry exactly when the
    (upper-cased) method is not GET, and that entry references
    ErrorResponse too.  No other status code is present. *)
Theorem buildResponses_table (route : RouteInfo) :
  let responses := buildResponses route in
  let errorRef := Some {| Schema := {| Ref := "#/components/schemas/ErrorResponse" |} |} in
  (∃ ok, responses !! "200" = Some ok ∧
         Response_Description ok = "Success" ∧
         match ResponseType route with
         | Some t =>
             Response_Content ok !! "application/json" =
               Some {| Schema := {| Ref := "#/components/schemas/" +:+ getTypeName t |} |}
         | None => Response_Content ok = ∅
         end) ∧
  (∃ bad, responses !! "400" = Some bad ∧
          Response_Content bad !! "application/json" = errorRef) ∧
  (∃ err, responses !! "500" = Some err ∧
          Response_Content err !! "application/json" = errorRef) ∧
  (is_Some (responses !! "422") ↔ ToUpper (Method route) ≠ "GET") ∧
  (∀ r, responses !! "422" = Some r →
        Response_Content r !! "application/json" = errorRef) ∧
  (∀ code, is_Some (responses !! code) → code ∈ ["200"; "400"; "500"; "422"]).
Proof.
  cbn zeta. repeat split.
  - unfold buildResponses.
    destruct (String.eqb (ToUpper (Method route)) "GET");
      destruct (ResponseType route) as [t|]; simplify_map_eq;
      eexists; (split; [reflexivity|]); (split; [reflexivity|]); cbn;
      try apply jsonContent_lookup; reflexivity.
  - unfold buildResponses.
    destruct (String.eqb (ToUpper (Method route)) "GET");
      destruct (ResponseType route) as [t|]; simplify_map_eq;
      eexists; (split; [reflexivity|]); apply jsonContent_lookup.
  - unfold buildResponses.
    destruct (String.eqb (ToUpper (Method route)) "GET");
      destruct (ResponseType route) as [t|]; simplify_map_eq;
      eexists; (split; [reflexivity|]); apply jsonContent_lookup.
  - rewrite buildResponses_422.
    destruct (String.eqb_spec (ToUpper (Method route)) "GET") as [E|E];
      intros [r Hr]; congruence.
  - rewrite buildResponses_422.
    destruct (String.eqb_spec (ToUpper (Method route)) "GET") as [E|E];
      intros NE; [congruence | eauto].
  - intros r. rewrite buildResponses_422.
    destruct (String.eqb (ToUpper (Method route)) "GET"); [done|].
    intros [= <-]. apply jsonContent_lookup.
  - intros code [r Hr]. unfold buildResponses in Hr.
    destruct (decide (code = "200")) as [->|?]; [set_solver|].
    destruct (decide (code = "400")) as [->|?]; [set_solver|].
    destruct (decide (code = "500")) as [->|?]; [set_solver|].
    destruct (decide (code = "422")) as [->|?]; [set_solver|].
    exfalso.
    destruct (String.eqb (ToUpper (Method route)) "GET");
      destruct (ResponseType route); simplify_map_eq.
Qed.

(** *** Request bodies *)

(** C7: the operation compiled from a route has a request body exactly when
    the route declares a request type and its (upper-cased) method is not
    GET; that body is required, references the named schema of the request
    type under application/json, and its description is the non-empty text
    "Request body for " followed by the route's summary. *)
Theorem buildOperation_requestBody (route : RouteInfo) :
  let operation := buildOperation route in
  (is_Some (Op_RequestBody operation) ↔
     is_Some (RequestType route) ∧ ToUpper (Method route) ≠ "GET") ∧
  (∀ body, Op_RequestBody operation = Some body →
     RequestBody_Required body = true ∧
     (∃ t, RequestType route = Some t ∧
           RequestBody_Content body !! "application/json" =
             Some {| Schema := {| Ref := "#/components/schemas/" +:+ getTypeName t |} |}) ∧
     RequestBody_Description body = "Request body for " +:+ Summary route ∧
     RequestBody_Description body ≠ "").
Proof.
  cbn zeta. unfold buildOperation, buildRequestBody; cbn.
  destruct (RequestType route) as [t|];
    destruct (String.eqb_spec (ToUpper (Method route)) "GET") as [E|E]; cbn.
  - split; [|done]. split; [by intros [? ?] | by intros [_ ?]].
  - split; [split; eauto|].
    intros body [= <-]; cbn. repeat split; eauto using jsonContent_lookup.
  - split; [|done]. split; [by intros [? ?] | by intros [[? ?] _]].
  - split; [|done]. split; [by intros [? ?] | by intros [[? ?] _]].
Qed.

(** *** Serialization *)

(** C9: [buildOpenAPISpec] always returns text.  When the encoder succeeds
    the text is the banner - two comment lines, each ended by a newline,
    and an empty line - followed by the encoded body; when the encoder
    fails the text is one comment line carrying the error. *)
Theorem buildOpenAPISpec_text (g : Generator) :
  (∀ yamlData, yaml_Marshal (document g) = inl yamlData →
     buildOpenAPISpec g =
       "# Auto-generated OpenAPI specification" +:+ nl +:+
       "# DO NOT EDIT MANUALLY - Changes will be overwritten" +:+ nl +:+
       nl +:+ yamlData) ∧
  (∀ err, yaml_Marshal (document g) = inr err →
     buildOpenAPISpec g = "# Error generating YAML: " +:+ err +:+ nl) ∧
  has_prefix "# " (buildOpenAPISpec g) = true.
Proof.
  unfold buildOpenAPISpec. repeat split.
  - intros yamlData ->. reflexivity.
  - intros err ->. reflexivity.
  - destruct (yaml_Marshal (document g)); reflexivity.
Qed.

End SpecFacts.

Section PathsFacts.
Context `{GoUnicode} `{TypeNaming}.

Import GoStrings Spec PathsSpec.

Lemma buildPathsOf_snoc (rs : list RouteInfo) (r : RouteInfo) :
  buildPathsOf (rs ++ [r]) = addRoute (buildPathsOf rs) r.
Proof. unfold buildPathsOf. apply foldl_snoc. Qed.

Lemma lastOp_snoc (m p : string) (rs : list RouteInfo) (r : RouteInfo) :
  lastOp m p (rs ++ [r]) =
    if matchesSlot m p r then Some (buildOperation r) else lastOp m p rs.
Proof.
  unfold lastOp. rewrite List.filter_app. cbn.
  destruct (matchesSlot m p r).
  - rewrite fmap_app. cbn. apply last_snoc.
  - by rewrite app_nil_r.
Qed.

Lemma lastOp_nil (m p : string) : lastOp m p [] = None.
Proof. reflexivity. Qed.

Lemma lastOp_off_path (m p : string) (rs : list RouteInfo) :
  existsb (onPath p) rs = false → lastOp m p rs = None.
Proof.
  induction rs as [|r rs IH] using rev_ind; [done|].
  rewrite existsb_app, lastOp_snoc. cbn. unfold matchesSlot.
  rewrite orb_false_r. intros [H1 H2]%orb_false_iff.
  rewrite H2. cbn. auto.
Qed.

(** The slot a route's method selects, once upper-cased. *)
Lemma setSlot_slots (item : PathItem) (r : RouteInfo) :
  let item' := setSlot item (Method r) (buildOperation r) in
  Get item' = (if isMethod "GET" r then Some (buildOperation r) else Get item) ∧
  Post item' = (if isMethod "POST" r then Some (buildOperation r) else Post item) ∧
  Put item' = (if isMethod "PUT" r then Some (buildOperation r) else Put item) ∧
  Delete item' = (if isMethod "DELETE" r then Some (buildOperation r) else Delete item).
Proof.
  cbn zeta. unfold setSlot, isMethod.
  destruct (String.eqb_spec (ToUpper (Method r)) "GET") as [->|?]; [done|].
  destruct (String.eqb_spec (ToUpper (Method r)) "POST") as [->|?]; [done|].
  destruct (String.eqb_spec (ToUpper (Method r)) "PUT") as [->|?]; [done|].
  destruct (String.eqb_spec (ToUpper (Method r)) "DELETE") as [?|?]; done.
Qed.

Lemma PathItem_ext (a b : PathItem) :
  Get a = Get b → Post a = Post b → Put a = Put b → Delete a = Delete b → a = b.
Proof. destruct a, b; cbn; congruence. Qed.

Lemma slotsOf_snoc_on (rs : list RouteInfo) (r : RouteInfo) :
  slotsOf (Path r) (rs ++ [r]) = setSlot (slotsOf (Path r) rs) (Method r) (buildOperation r).
Proof.
  destruct (setSlot_slots (slotsOf (Path r) rs) r) as (Hg & Hp & Hu & Hd).
  apply PathItem_ext; cbn;
    [rewrite Hg | rewrite Hp | rewrite Hu | rewrite Hd];
    rewrite lastOp_snoc; unfold matchesSlot, onPath;
    rewrite String.eqb_refl; reflexivity.
Qed.

Lemma slotsOf_snoc_off (p : string) (rs : list RouteInfo) (r : RouteInfo) :
  Path r ≠ p → slotsOf p (rs ++ [r]) = slotsOf p rs.
Proof.
  intros Hne%String.eqb_neq.
  apply PathItem_ext; cbn; rewrite lastOp_snoc;
    unfold matchesSlot, onPath; rewrite Hne; reflexivity.
Qed.

Lemma slotsOf_off_path (p : string) (rs : list RouteInfo) :
  existsb (onPath p) rs = false → slotsOf p rs = emptyPathItem.
Proof.
  intros Hp. unfold slotsOf, emptyPathItem.
  by rewrite !lastOp_off_path.
Qed.

(** The loop of [buildPaths] computes, for every path, the last operation
    declared for each of the four methods; paths no route mentions are
    absent. *)
Lemma buildPathsOf_lookup (rs : list RouteInfo) (p : string) :
  buildPathsOf rs !! p =
    if existsb (onPath p) rs then Some (slotsOf p rs) else None.
Proof.
  induction rs as [|r rs IH] using rev_ind; [done|].
  rewrite buildPathsOf_snoc, existsb_app. cbn. rewrite orb_false_r.
  unfold addRoute.
  destruct (decide (Path r = p)) as [<-|Hne].
  - rewrite lookup_insert_eq. unfold onPath at 2. rewrite String.eqb_refl, orb_true_r.
    rewrite slotsOf_snoc_on, IH.
    destruct (existsb (onPath (Path r)) rs) eqn:Hex; [done|].
    by rewrite slotsOf_off_path.
  - rewrite lookup_insert_ne by done.
    assert (onPath p r = false) as -> by (by apply String.eqb_neq).
    rewrite orb_false_r, IH, slotsOf_snoc_off by done. done.
Qed.

Lemma existsb_onPath (p : string) (rs : list RouteInfo) :
  existsb (onPath p) rs = true ↔ p ∈ Path <$> rs.
Proof.
  rewrite existsb_exists, list_elem_of_fmap. unfold onPath.
  split.
  - intros (r & Hin & <-%String.eqb_eq). exists r.
    split; [done | by apply list_elem_of_In].
  - intros (r & -> & Hin). exists r.
    split; [by apply list_elem_of_In | apply String.eqb_refl].
Qed.

Lemma buildPathsOf_dom (rs : list RouteInfo) :
  dom (buildPathsOf rs) = list_to_set (Path <$> rs).
Proof.
  apply set_eq. intros p.
  rewrite elem_of_dom, buildPathsOf_lookup, elem_of_list_to_set, <- existsb_onPath.
  destruct (existsb (onPath p) rs); split; intros Hx; eauto; try done.
Qed.

Lemma buildPathsOf_size (rs : list RouteInfo) :
  size (buildPathsOf rs) = length (remove_dups (Path <$> rs)).
Proof.
  rewrite <- size_dom, buildPathsOf_dom.
  rewrite <- (size_list_to_set (C:=gset string)) by apply NoDup_remove_dups.
  f_equal. apply set_eq. intros p.
  by rewrite !elem_of_list_to_set, elem_of_remove_dups.
Qed.

End PathsFacts.

Section PathsTheorems.
Context `{GoUnicode} `{TypeNaming}.

Import GoStrings Spec PathsSpec.

Lemma lastOp_no_match (m p : string) (rs : list RouteInfo) :
  (∀ r, r ∈ rs → matchesSlot m p r = false) → lastOp m p rs = None.
Proof.
  induction rs as [|r rs IH] using rev_ind; [done|].
  intros Hall. rewrite lastOp_snoc, Hall by set_solver.
  apply IH. intros r' Hr'. apply Hall. set_solver.
Qed.

(** [lastOp] read on the route list: the operation comes from a matching
    route after which no route matches. *)
Lemma lastOp_Some (m p : string) (rs : list RouteInfo) (op : Operation) :
  lastOp m p rs = Some op ↔
  ∃ rs1 r rs2, rs = rs1 ++ r :: rs2 ∧ matchesSlot m p r = true ∧
               op = buildOperation r ∧
               ∀ r', r' ∈ rs2 → matchesSlot m p r' = false.
Proof.
  induction rs as [|r rs IH] using rev_ind.
  - split; [done|]. intros (rs1 & r & rs2 & E & _). by destruct rs1.
  - rewrite lastOp_snoc. destruct (matchesSlot m p r) eqn:Hm.
    + split.
      * intros [= <-]. exists rs, r, []. repeat split; auto. set_solver.
      * intros (rs1 & r0 & rs2 & E & Hm0 & -> & Hno).
        induction rs2 as [|x rs2 _] using rev_ind.
        -- apply app_inj_tail in E as [_ ->]. done.
        -- rewrite app_comm_cons, app_assoc in E.
           apply app_inj_tail in E as [_ ->].
           rewrite Hno in Hm; [done|].
           apply elem_of_app. right. by apply list_elem_of_singleton.
    + rewrite IH. split.
      * intros (rs1 & r0 & rs2 & -> & Hm0 & -> & Hno).
        exists rs1, r0, (rs2 ++ [r]). rewrite <- app_assoc. repeat split; auto.
        intros r' [?| ->%list_elem_of_singleton]%elem_of_app; auto.
      * intros (rs1 & r0 & rs2 & E & Hm0 & -> & Hno).
        induction rs2 as [|x rs2 _] using rev_ind.
        -- apply app_inj_tail in E as [_ ->]. congruence.
        -- rewrite app_comm_cons, app_assoc in E.
           apply app_inj_tail in E as [-> ->].
           exists rs1, r0, rs2. repeat split; auto.
           intros r' Hr'. apply Hno, elem_of_app. by left.
Qed.

Lemma lastOp_match (m p : string) (rs : list RouteInfo) (r : RouteInfo) :
  r ∈ rs → matchesSlot m p r = true → is_Some (lastOp m p rs).
Proof.
  induction rs as [|x rs IH] using rev_ind; [set_solver|].
  rewrite lastOp_snoc.
  intros [Hin| ->%list_elem_of_singleton]%elem_of_app Hm.
  - destruct (matchesSlot m p x); eauto.
  - rewrite Hm; eauto.
Qed.

Lemma isMethod_exclusive (m m' : string) (r : RouteInfo) :
  isMethod m r = true → m ≠ m' → isMethod m' r = false.
Proof.
  unfold isMethod. intros ->%String.eqb_eq Hne. by apply String.eqb_neq.
Qed.

(** C8: the paths table has an entry for exactly the paths of the routes,
    one per distinct path; in each entry the slot of a method holds the
    operation of the last route declared for that (upper-cased) method on
    that path, and is absent when there is none.  So a later route with
    the same method and path replaces the earlier one, and a path on which
    every route is a GET has no POST, PUT or DELETE operation. *)
Theorem buildPaths_table (g : Generator) :
  let paths := buildPaths g in
  (∀ p, is_Some (paths !! p) ↔ p ∈ Path <$> routes g) ∧
  size paths = length (remove_dups (Path <$> routes g)) ∧
  (∀ p item, paths !! p = Some item →
     Get item = lastOp "GET" p (routes g) ∧
     Post item = lastOp "POST" p (routes g) ∧
     Put item = lastOp "PUT" p (routes g) ∧
     Delete item = lastOp "DELETE" p (routes g)) ∧
  (∀ m rs1 r1 rs2 r2 rs3,
     routes g = rs1 ++ r1 :: rs2 ++ r2 :: rs3 →
     matchesSlot m (Path r2) r1 = true →
     isMethod m r2 = true →
     (∀ r', r' ∈ rs3 → matchesSlot m (Path r2) r' = false) →
     lastOp m (Path r2) (routes g) = Some (buildOperation r2)) ∧
  (∀ p item, paths !! p = Some item →
     (∀ r, r ∈ routes g → Path r = p → isMethod "GET" r = true) →
     is_Some (Get item) ∧ Post item = None ∧ Put item = None ∧ Delete item = None).
Proof.
  cbn zeta. unfold buildPaths. repeat apply conj.
  - intros p. rewrite <- existsb_onPath, buildPathsOf_lookup.
    destruct (existsb (onPath p) (routes g)); split; intros Hx; eauto; try done.
  - apply buildPathsOf_size.
  - intros p item. rewrite buildPathsOf_lookup.
    destruct (existsb (onPath p) (routes g)); [|done].
    intros [= <-]. done.
  - intros m rs1 r1 rs2 r2 rs3 E _ Hm Hno.
    apply lastOp_Some. exists (rs1 ++ r1 :: rs2), r2, rs3.
    rewrite E, <- app_assoc. repeat split; auto.
    unfold matchesSlot, onPath. by rewrite String.eqb_refl, Hm.
  - intros p item. rewrite buildPathsOf_lookup.
    destruct (existsb (onPath p) (routes g)) eqn:Hex; [|done].
    intros [= <-] Hget. cbn.
    assert (∀ m, m ≠ "GET" → lastOp m p (routes g) = None) as Hnone.
    { intros m Hne. apply lastOp_no_match. intros r Hr. unfold matchesSlot.
      destruct (onPath p r) eqn:Hp; [|done]. cbn.
      apply (isMethod_exclusive "GET"); [|done].
      apply Hget; [done|]. by apply String.eqb_eq. }
    rewrite (Hnone "POST"), (Hnone "PUT"), (Hnone "DELETE") by done.
    repeat split.
    apply existsb_exists in Hex as (r & Hin%list_elem_of_In & Hp).
    apply (lastOp_match _ _ _ r); [done|].
    unfold matchesSlot. rewrite Hp. cbn.
    apply Hget; [done|]. by apply String.eqb_eq.
Qed.

Lemma supported_false (r : RouteInfo) :
  supported r = false →
  isMethod "GET" r = false ∧ isMethod "POST" r = false ∧
  isMethod "PUT" r = false ∧ isMethod "DELETE" r = false.
Proof.
  unfold supported. rewrite !orb_false_iff. tauto.
Qed.

Lemma setSlot_unsupported (item : PathItem) (r : RouteInfo) (op : Operation) :
  supported r = false → setSlot item (Method r) op = item.
Proof.
  intros (Hg & Hp & Hu & Hd)%supported_false. unfold isMethod in *.
  unfold setSlot. by rewrite Hg, Hp, Hu, Hd.
Qed.

(** C10: a route whose upper-cased method is none of GET, POST, PUT and
    DELETE fills no slot, yet its path is written to the table: the entry
    that was there is kept as it was, and a path that was absent gets an
    entry with all four slots empty.  A path on which every route is of
    that kind has an entry with zero operations, and it counts among the
    entries of the table. *)
Theorem buildPaths_unsupported_method (r : RouteInfo) :
  supported r = false →
  (∀ paths,
     addRoute paths r !! Path r = Some (default emptyPathItem (paths !! Path r)) ∧
     ∀ p, p ≠ Path r → addRoute paths r !! p = paths !! p) ∧
  (∀ rs, r ∈ rs →
     (∀ r', r' ∈ rs → Path r' = Path r → supported r' = false) →
     buildPathsOf rs !! Path r = Some emptyPathItem ∧
     operationCount emptyPathItem = 0 ∧
     Path r ∈ dom (buildPathsOf rs) ∧
     size (buildPathsOf rs) = length (remove_dups (Path <$> rs))) ∧
  size (buildPathsOf [r]) = 1.
Proof.
  intros Hun. repeat apply conj.
  - intros paths. split.
    + unfold addRoute. rewrite lookup_insert_eq, setSlot_unsupported by done.
      by destruct (paths !! Path r).
    + intros p Hne. unfold addRoute. by rewrite lookup_insert_ne.
  - intros rs Hin Hall.
    assert (buildPathsOf rs !! Path r = Some emptyPathItem) as Hlook.
    { rewrite buildPathsOf_lookup.
      assert (existsb (onPath (Path r)) rs = true) as ->.
      { apply existsb_onPath, list_elem_of_fmap. eauto. }
      f_equal. unfold slotsOf, emptyPathItem.
      assert (∀ m, m ∈ ["GET"; "POST"; "PUT"; "DELETE"] →
                   lastOp m (Path r) rs = None) as Hnone.
      { intros m Hm. apply lastOp_no_match. intros r' Hr'.
        unfold matchesSlot, onPath.
        destruct (String.eqb_spec (Path r') (Path r)) as [E|E]; [|done]. cbn.
        destruct (supported_false r' (Hall r' Hr' E)) as (Hg & Hp & Hu & Hd).
        set_unfold. by destruct Hm as [->|[->|[->|[->|[]]]]]. }
      rewrite !Hnone by set_solver. done. }
    repeat split; [done | | apply buildPathsOf_size].
    apply elem_of_dom. by rewrite Hlook.
  - rewrite buildPathsOf_size. reflexivity.
Qed.

End PathsTheorems.

(* ===================================================================== *)
(** * Properties of the type reflector *)
(* ===================================================================== *)

Section ReflectorFacts.
Context `{TypeNaming} (env : TypeEnv).

Import Reflector ReflectorSpec.

(** *** The cache only grows *)

Lemma reflectFields_grows (rec : rec_type) (fs : list StructField) :
  rec_grows rec →
  ∀ c ps rq ps' rq' c',
    reflectFields rec c fs ps rq = Some (ps', rq', c') → dom c ⊆ dom c'.
Proof.
  intros Hrec. induction fs as [|f fs IH]; intros c ps rq ps' rq' c' Hr; cbn in Hr.
  - by simplify_eq.
  - destruct (tag_excluded f); [eauto|].
    destruct (rec c (field_Type f)) as [[s c1]|] eqn:E; [|done].
    apply Hrec in E. apply IH in Hr. set_solver.
Qed.

Lemma reflectType_grows (rec : rec_type) :
  rec_grows rec → rec_grows (reflectType env rec).
Proof.
  intros Hrec c t s c' Hr. destruct t; cbn in Hr;
    repeat case_match; simplify_eq; eauto; try done.
  match goal with
  | E : reflectFields _ _ _ _ _ = Some _ |- _ =>
      apply (reflectFields_grows _ _ Hrec) in E
  end.
  rewrite dom_insert_L in *. set_solver.
Qed.

Lemma reflect_grows (fuel : nat) : rec_grows (reflect env fuel).
Proof.
  induction fuel as [|fuel IH]; [done|]. by apply reflectType_grows.
Qed.

(** *** More fuel does not change a result *)

Lemma reflectFields_below (rec1 rec2 : rec_type) (fs : list StructField) :
  rec_below rec1 rec2 →
  ∀ c ps rq r,
    reflectFields rec1 c fs ps rq = Some r → reflectFields rec2 c fs ps rq = Some r.
Proof.
  intros Hrec. induction fs as [|f fs IH]; intros c ps rq r Hr; cbn in *; [done|].
  destruct (tag_excluded f); [eauto|].
  destruct (rec1 c (field_Type f)) as [[s c1]|] eqn:E; [|done].
  rewrite (Hrec _ _ _ E). eauto.
Qed.

Lemma reflectType_below (rec1 rec2 : rec_type) :
  rec_below rec1 rec2 → rec_below (reflectType env rec1) (reflectType env rec2).
Proof.
  intros Hrec c t r Hr. destruct t; cbn in Hr |- *; eauto.
  - destruct (rec1 c t) as [[s c1]|] eqn:E; [|done].
    by rewrite (Hrec _ _ _ E).
  - destruct (rec1 c t) as [[s c1]|] eqn:E; [|done].
    by rewrite (Hrec _ _ _ E).
  - repeat case_match; simplify_eq; try done;
      match goal with
      | E : rec1 _ _ = Some _ |- _ => rewrite (Hrec _ _ _ E) in *
      end; by simplify_eq.
  - destruct (isTime pkg name); [done|].
    destruct (c !! getTypeName (TStruct pkg name)); [done|].
    destruct (reflectFields rec1 _ _ _ _) as [[[ps rq] c1]|] eqn:E; [|done].
    by rewrite (reflectFields_below _ _ _ Hrec _ _ _ _ E).
Qed.

Lemma reflect_S_below (fuel : nat) :
  rec_below (reflect env fuel) (reflect env (S fuel)).
Proof.
  induction fuel as [|fuel IH]; [done|].
  by apply reflectType_below.
Qed.

Lemma reflect_more_fuel (fuel fuel' : nat) :
  (fuel ≤ fuel')%nat → rec_below (reflect env fuel) (reflect env fuel').
Proof.
  induction 1 as [|fuel' _ IH]; [by intros ???|].
  intros c t r Hr. by apply reflect_S_below, IH.
Qed.

(** *** Reflection ends: enough fuel always gives a result *)

Lemma filter_length_le {A} (f g : A → bool) (l : list A) :
  (∀ x, x ∈ l → f x = true → g x = true) →
  (length (List.filter f l) ≤ length (List.filter g l))%nat.
Proof.
  induction l as [|x l IH]; intros Himp; [done|]. cbn.
  assert (length (List.filter f l) ≤ length (List.filter g l))%nat as Hl.
  { apply IH. intros y Hy. apply Himp. by right. }
  destruct (f x) eqn:Hf.
  - rewrite (Himp x) by (done || by left). cbn. lia.
  - destruct (g x); cbn; lia.
Qed.

Lemma filter_length_lt {A} (f g : A → bool) (l : list A) (a : A) :
  (∀ x, x ∈ l → f x = true → g x = true) →
  a ∈ l → f a = false → g a = true →
  (length (List.filter f l) < length (List.filter g l))%nat.
Proof.
  induction l as [|x l IH]; intros Himp Hin Hfa Hga; [by apply elem_of_nil in Hin|].
  cbn. apply elem_of_cons in Hin as [<-|Hin].
  - rewrite Hfa, Hga. cbn.
    pose proof (filter_length_le f g l) as Hl.
    assert (length (List.filter f l) ≤ length (List.filter g l))%nat; [|lia].
    apply Hl. intros y Hy. apply Himp. by right.
  - assert (length (List.filter f l) < length (List.filter g l))%nat as Hl.
    { apply IH; auto. intros y Hy. apply Himp. by right. }
    destruct (f x) eqn:Hf.
    + rewrite (Himp x) by (done || by left). cbn. lia.
    + destruct (g x); cbn; lia.
Qed.

Lemma unreserved_mono (c c' : Cache) :
  dom c ⊆ dom c' → (unreserved env c' ≤ unreserved env c)%nat.
Proof.
  intros Hsub. apply filter_length_le. intros d _. unfold isFree.
  rewrite !bool_decide_eq_true, <- !not_elem_of_dom. set_solver.
Qed.

Lemma unreserved_reserve (c : Cache) (d : StructDecl) (s : TypeSchema) :
  d ∈ env → c !! declKey d = None →
  (unreserved env (<[declKey d := s]> c) < unreserved env c)%nat.
Proof.
  intros Hin Hfree. apply (filter_length_lt _ _ _ d); auto.
  - intros d' _. unfold isFree. rewrite !bool_decide_eq_true.
    intros Hd'. destruct (decide (declKey d = declKey d')) as [E|E].
    + by rewrite <- E, lookup_insert_eq in Hd'.
    + by rewrite lookup_insert_ne in Hd'.
  - unfold isFree. apply bool_decide_eq_false. by rewrite lookup_insert_eq.
  - unfold isFree. by apply bool_decide_eq_true.
Qed.

Lemma unreserved_le_env (c : Cache) : (unreserved env c ≤ length env)%nat.
Proof. apply List.filter_length_le. Qed.

Lemma find_is_decl (pkg name : string) (d : StructDecl) :
  find (is_decl pkg name) env = Some d →
  d ∈ env ∧ getTypeName (TStruct pkg name) = declKey d.
Proof.
  intros [Hin Hd]%find_some. split; [by apply list_elem_of_In|].
  unfold is_decl in Hd. apply andb_true_iff in Hd as [<-%String.eqb_eq <-%String.eqb_eq].
  reflexivity.
Qed.

Lemma foldr_max_le (x : nat) (l : list nat) : x ∈ l → (x ≤ foldr Nat.max 0 l)%nat.
Proof.
  induction l as [|y l IH]; [by intros ?%elem_of_nil|].
  intros [->|Hin]%elem_of_cons; cbn; [lia|]. specialize (IH Hin). lia.
Qed.

Lemma fieldSize_le (d : StructDecl) (f : StructField) :
  d ∈ env → f ∈ decl_fields d →
  (typeSize (field_Type f) ≤ maxFieldSize env)%nat.
Proof.
  intros Hd Hf. apply foldr_max_le, list_elem_of_In, in_flat_map.
  exists d. split; [by apply list_elem_of_In|].
  apply in_map_iff. exists f. split; [done | by apply list_elem_of_In].
Qed.

Lemma typeSize_pos (t : GoType) : (1 ≤ typeSize t)%nat.
Proof. destruct t; cbn; lia. Qed.

Lemma reflectFields_total (rec : rec_type) (n : nat) (fs : list StructField) :
  rec_grows rec →
  (∀ c f, (unreserved env c ≤ n)%nat → f ∈ fs → is_Some (rec c (field_Type f))) →
  ∀ c ps rq, (unreserved env c ≤ n)%nat → is_Some (reflectFields rec c fs ps rq).
Proof.
  intros Hgrow. induction fs as [|f fs IH]; intros Hrec c ps rq Hc; cbn.
  - eauto.
  - assert (∀ c f0, (unreserved env c ≤ n)%nat → f0 ∈ fs →
                    is_Some (rec c (field_Type f0))) as Hrec'.
    { intros c0 f0 Hc0 Hf0. apply Hrec; [done | by right]. }
    destruct (tag_excluded f); [by apply IH|].
    destruct (Hrec c f Hc) as [[s c1] E]; [by left|]. rewrite E.
    apply IH; [done|]. apply Hgrow in E.
    pose proof (unreserved_mono _ _ E). lia.
Qed.

Lemma reflectType_total (rec : rec_type) (fuel : nat) :
  rec_grows rec →
  (∀ c t, fits env c t fuel → is_Some (rec c t)) →
  ∀ c t, fits env c t (S fuel) → is_Some (reflectType env rec c t).
Proof.
  unfold fits. intros Hgrow Hrec c t Hfit.
  destruct t; cbn in Hfit |- *; eauto.
  - apply Hrec. lia.
  - destruct (Hrec c t) as [[s c1] ->]; [lia | eauto].
  - destruct (Hrec c t) as [[s c1] ->]; [lia | eauto].
  - destruct t1 as [[]| | | | | | | |]; eauto.
    destruct (Hrec c t2) as [[s c1] E]; [lia|].
    destruct t2; eauto; rewrite E; eauto.
  - destruct (isTime pkg name); [eauto|].
    destruct (c !! getTypeName (TStruct pkg name)) eqn:Hc; [eauto|].
    set (key := getTypeName (TStruct pkg name)) in *.
    set (c1 := <[key := SOpaque]> c).
    assert (is_Some (reflectFields rec c1 (fieldsOf env pkg name) [] [])) as [[[ps rq] c2] ->];
      [|eauto].
    unfold fieldsOf. destruct (find (is_decl pkg name) env) as [d|] eqn:Hfind; [|cbn; eauto].
    apply find_is_decl in Hfind as [Hd Hkey]. fold key in Hkey.
    assert (unreserved env c1 < unreserved env c)%nat as Hlt.
    { subst c1. rewrite Hkey. apply unreserved_reserve; [done|]. by rewrite <- Hkey. }
    apply (reflectFields_total _ (unreserved env c1)); [done | | done].
    intros c' f Hc' Hf. apply Hrec.
    pose proof (fieldSize_le d f Hd Hf).
    assert (unreserved env c' * S (maxFieldSize env)
            ≤ unreserved env c1 * S (maxFieldSize env))%nat
      by (by apply Nat.mul_le_mono_r).
    assert (S (unreserved env c1) * S (maxFieldSize env)
            ≤ unreserved env c * S (maxFieldSize env))%nat
      by (by apply Nat.mul_le_mono_r).
    lia.
Qed.

Lemma reflect_total (fuel : nat) (c : Cache) (t : GoType) :
  fits env c t fuel → is_Some (reflect env fuel c t).
Proof.
  revert c t. induction fuel as [|fuel IH]; intros c t Hfit.
  - unfold fits in Hfit. pose proof (typeSize_pos t). lia.
  - cbn. apply (reflectType_total _ fuel); [apply reflect_grows | done | done].
Qed.

Lemma fits_fuelFor (c : Cache) (t : GoType) : fits env c t (fuelFor env t).
Proof.
  unfold fits, fuelFor. pose proof (unreserved_le_env c).
  apply Nat.add_le_mono_l, Nat.mul_le_mono_r. done.
Qed.

(** [generateTypeSchema] always answers. *)
Lemma generateTypeSchema_total (c : Cache) (t : GoType) :
  is_Some (generateTypeSchema env c t).
Proof. unfold generateTypeSchema. apply reflect_total, fits_fuelFor. Qed.

(** Any run of [reflect] that answers gives the answer of
    [generateTypeSchema]. *)
Lemma reflect_generateTypeSchema (fuel : nat) (c : Cache) (t : GoType) r :
  reflect env fuel c t = Some r → generateTypeSchema env c t = Some r.
Proof.
  intros Hr. destruct (generateTypeSchema_total c t) as [r' Hr'].
  rewrite Hr'. unfold generateTypeSchema in Hr'.
  destruct (Nat.le_ge_cases fuel (fuelFor env t)) as [Hle|Hle].
  - apply (reflect_more_fuel _ _ Hle) in Hr. congruence.
  - apply (reflect_more_fuel _ _ Hle) in Hr'. congruence.
Qed.

Lemma generateTypeSchema_unfold (c : Cache) (t : GoType) :
  generateTypeSchema env c t = reflectType env (generateTypeSchema env) c t.
Proof.
  destruct (generateTypeSchema_total c t) as [r Hr]. rewrite Hr. symmetry.
  unfold generateTypeSchema in Hr.
  destruct (fuelFor env t) as [|fuel] eqn:Hf; [done|]. cbn in Hr.
  revert Hr. apply reflectType_below.
  intros c' t' r'. apply reflect_generateTypeSchema.
Qed.

(** *** The field loop *)

Lemma setProperty_keys (n : string) (s : TypeSchema) (ps : list (string * TypeSchema)) :
  (setProperty n s ps).*1 = addName ps.*1 n.
Proof.
  unfold addName. induction ps as [|[m s0] ps IH]; [done|]. cbn.
  destruct (String.eqb_spec m n) as [->|Hne]; cbn.
  - rewrite bool_decide_eq_true_2 by (by left). done.
  - rewrite IH. destruct (bool_decide (n ∈ ps.*1)) eqn:Hin.
    + apply bool_decide_eq_true in Hin.
      rewrite bool_decide_eq_true_2 by (by right). done.
    + apply bool_decide_eq_false in Hin.
      rewrite bool_decide_eq_false_2; [done|].
      intros [?|?]%elem_of_cons; congruence.
Qed.

Lemma setProperty_here (n : string) (s : TypeSchema) (ps : list (string * TypeSchema)) :
  (n, s) ∈ setProperty n s ps.
Proof.
  induction ps as [|[m s0] ps IH]; cbn; [by left|].
  destruct (String.eqb_spec m n) as [->|Hne]; [by left | by right].
Qed.

Lemma setProperty_other (n m : string) (s s' : TypeSchema)
    (ps : list (string * TypeSchema)) :
  n ≠ m → (n, s) ∈ ps → (n, s) ∈ setProperty m s' ps.
Proof.
  intros Hne. induction ps as [|[k s0] ps IH]; cbn; [by intros ?%elem_of_nil|].
  intros [[= <- <-]|Hin]%elem_of_cons.
  - rewrite (proj2 (String.eqb_neq n m)) by done. by left.
  - destruct (String.eqb k m); right; auto.
Qed.

Lemma addName_elem (names : list string) (n x : string) :
  x ∈ addName names n ↔ x ∈ names ∨ x = n.
Proof.
  unfold addName. case_bool_decide as Hin.
  - split; [auto|]. by intros [?| ->].
  - rewrite elem_of_app, list_elem_of_singleton. done.
Qed.

Lemma foldl_addName_elem (l acc : list string) (x : string) :
  x ∈ foldl addName acc l ↔ x ∈ acc ∨ x ∈ l.
Proof.
  revert acc. induction l as [|n l IH]; intros acc; cbn.
  - rewrite elem_of_nil. tauto.
  - rewrite IH, addName_elem, elem_of_cons. tauto.
Qed.

Lemma firstOccurrences_elem (l : list string) (x : string) :
  x ∈ firstOccurrences l ↔ x ∈ l.
Proof.
  unfold firstOccurrences. rewrite foldl_addName_elem, elem_of_nil. tauto.
Qed.

(** What the loop leaves in its two accumulators. *)
Lemma reflectFields_names (rec : rec_type) (fs : list StructField) :
  ∀ c ps rq ps' rq' c',
    reflectFields rec c fs ps rq = Some (ps', rq', c') →
    ps'.*1 = foldl addName ps.*1 (externalName <$> included fs) ∧
    rq' = rq ++ (externalName <$> List.filter isRequired (included fs)).
Proof.
  induction fs as [|f fs IH]; intros c ps rq ps' rq' c' Hr; cbn in Hr.
  - simplify_eq. by rewrite app_nil_r.
  - unfold included in *. cbn. destruct (tag_excluded f); cbn; [eauto|].
    destruct (rec c (field_Type f)) as [[s c1]|]; [|done].
    apply IH in Hr as [-> ->]. rewrite setProperty_keys. split; [done|].
    destruct (isRequired f); cbn; [by rewrite <- app_assoc | done].
Qed.

Lemma reflectFields_app (rec : rec_type) (fs1 fs2 : list StructField) :
  ∀ c ps rq,
    reflectFields rec c (fs1 ++ fs2) ps rq =
      match reflectFields rec c fs1 ps rq with
      | Some (ps1, rq1, c1) => reflectFields rec c1 fs2 ps1 rq1
      | None => None
      end.
Proof.
  induction fs1 as [|f fs1 IH]; intros c ps rq; cbn; [done|].
  destruct (tag_excluded f); [apply IH|].
  destruct (rec c (field_Type f)) as [[s c1]|]; [apply IH | done].
Qed.

Lemma reflectFields_keeps (rec : rec_type) (fs : list StructField)
    (n : string) (s : TypeSchema) :
  n ∉ externalName <$> included fs →
  ∀ c ps rq ps' rq' c',
    reflectFields rec c fs ps rq = Some (ps', rq', c') →
    (n, s) ∈ ps → (n, s) ∈ ps'.
Proof.
  induction fs as [|f fs IH]; intros Hn c ps rq ps' rq' c' Hr Hin; cbn in Hr.
  - by simplify_eq.
  - unfold included in *. cbn in Hn. destruct (tag_excluded f); cbn in Hn; [eauto|].
    destruct (rec c (field_Type f)) as [[s1 c1]|]; [|done].
    apply not_elem_of_cons in Hn as [Hne Hn].
    eapply IH; [done | exact Hr |]. by apply setProperty_other.
Qed.

(** The property of a field that no later field renames: it holds the
    schema its type reflected to, in a cache that lost nothing. *)
Lemma reflectFields_entry (rec : rec_type) (pre post : list StructField)
    (f : StructField) :
  rec_grows rec →
  tag_excluded f = false →
  externalName f ∉ externalName <$> included post →
  ∀ c ps rq ps' rq' c',
    reflectFields rec c (pre ++ f :: post) ps rq = Some (ps', rq', c') →
    ∃ c0 s c1, dom c ⊆ dom c0 ∧ rec c0 (field_Type f) = Some (s, c1) ∧
               (externalName f, s) ∈ ps'.
Proof.
  intros Hgrow Hex Hn c ps rq ps' rq' c'. rewrite reflectFields_app.
  destruct (reflectFields rec c pre ps rq) as [[[ps1 rq1] c0]|] eqn:Hpre; [|done].
  cbn. rewrite Hex.
  destruct (rec c0 (field_Type f)) as [[s c1]|] eqn:Hf; [|done].
  intros Hpost. exists c0, s, c1. split; [|split; [done|]].
  - by apply (reflectFields_grows _ _ Hgrow) in Hpre.
  - eapply reflectFields_keeps; [done | exact Hpost | apply setProperty_here].
Qed.

Lemma generateTypeSchema_grows : rec_grows (generateTypeSchema env).
Proof. intros c t s c'. apply reflect_grows. Qed.

(** A struct whose name the cache holds is answered by a reference, also
    through pointers. *)
Lemma generateTypeSchema_reference (c : Cache) (pkg name : string) (ft : GoType) :
  isTime pkg name = false →
  is_Some (c !! getTypeName (TStruct pkg name)) →
  pointsTo (TStruct pkg name) ft = true →
  generateTypeSchema env c ft =
    Some (SRef (schemaRef (getTypeName (TStruct pkg name))), c).
Proof.
  intros Ht [s0 Hc]. induction ft; intros Hp; cbn in Hp;
    rewrite ?orb_false_r in Hp;
    try (apply bool_decide_eq_true in Hp; discriminate).
  - apply orb_true_iff in Hp as [Hb|Hp].
    + apply bool_decide_eq_true in Hb. discriminate.
    + rewrite generateTypeSchema_unfold. cbn [reflectType]. auto.
  - apply bool_decide_eq_true in Hp. simplify_eq.
    rewrite generateTypeSchema_unfold. cbn [reflectType]. by rewrite Ht, Hc.
Qed.

(** First visit of a struct: reserve, reflect the fields, store. *)
Lemma generateTypeSchema_struct (c : Cache) (pkg name : string) :
  let key := getTypeName (TStruct pkg name) in
  isTime pkg name = false →
  c !! key = None →
  ∃ ps rq c2,
    reflectFields (generateTypeSchema env) (<[key := SOpaque]> c)
      (fieldsOf env pkg name) [] [] = Some (ps, rq, c2) ∧
    generateTypeSchema env c (TStruct pkg name) =
      Some (SObject ps rq, <[key := SObject ps rq]> c2).
Proof.
  intros key Ht Hc.
  destruct (generateTypeSchema_total c (TStruct pkg name)) as [r Hr].
  rewrite generateTypeSchema_unfold in Hr |- *. cbn [reflectType] in Hr |- *.
  fold key in Hr |- *. rewrite Ht, Hc in Hr |- *.
  destruct (reflectFields _ _ _ _ _) as [[[ps rq] c2]|]; [|done].
  eauto.
Qed.

Lemma included_elem (fs : list StructField) (f : StructField) :
  f ∈ included fs ↔ f ∈ fs ∧ tag_excluded f = false.
Proof.
  unfold included. rewrite !list_elem_of_In, filter_In, negb_true_iff. done.
Qed.

End ReflectorFacts.

Section ReflectorTheorems.
Context `{TypeNaming} (env : TypeEnv).

Import Reflector ReflectorSpec.

(** C1: reflection always ends, whatever cycles the declarations contain.
    A struct T met for the first time gives an object schema, stored under
    T's name, whose properties are the non-excluded fields of T in
    declaration order.  While T's name is in the cache - it is from the
    moment T is entered - asking for T again, directly or through pointers,
    gives the reference to T's named schema and leaves the cache as it is.
    So the property of a field of T whose type is T or a pointer to T (no
    later field taking its name) is that reference, not an inline copy. *)
Theorem reflect_cyclic_struct :
  (∀ c t, is_Some (generateTypeSchema env c t)) ∧
  (∀ (c : Cache) (pkg name : string),
     let T := TStruct pkg name in
     isTime pkg name = false →
     c !! getTypeName T = None →
     ∃ ps rq c',
       generateTypeSchema env c T = Some (SObject ps rq, c') ∧
       c' !! getTypeName T = Some (SObject ps rq) ∧
       ps.*1 = firstOccurrences (externalName <$> included (fieldsOf env pkg name)) ∧
       (∀ g, g ∈ fieldsOf env pkg name → tag_excluded g = false →
             externalName g ∈ ps.*1) ∧
       (∀ pre f post,
          fieldsOf env pkg name = pre ++ f :: post →
          tag_excluded f = false →
          pointsTo T (field_Type f) = true →
          externalName f ∉ externalName <$> included post →
          (externalName f, SRef ("#/components/schemas/" +:+ getTypeName T)) ∈ ps)) ∧
  (∀ (c : Cache) (pkg name : string) (ft : GoType),
     let T := TStruct pkg name in
     isTime pkg name = false →
     is_Some (c !! getTypeName T) →
     pointsTo T ft = true →
     generateTypeSchema env c ft =
       Some (SRef ("#/components/schemas/" +:+ getTypeName T), c)).
Proof.
  split; [apply generateTypeSchema_total|]. split.
  - intros c pkg name T Ht Hc.
    destruct (generateTypeSchema_struct env c pkg name Ht Hc)
      as (ps & rq & c2 & Hloop & Hgen).
    fold T in Hloop, Hgen.
    exists ps, rq, (<[getTypeName T := SObject ps rq]> c2).
    split; [done|]. split; [apply lookup_insert_eq|].
    pose proof (reflectFields_names _ _ _ _ _ _ _ _ Hloop) as [Hnames _].
    change (ps.*1 = firstOccurrences (externalName <$> included (fieldsOf env pkg name)))
      in Hnames.
    split; [exact Hnames|]. split.
    + intros g Hg Hgex. rewrite Hnames. apply firstOccurrences_elem.
      apply list_elem_of_fmap. exists g. split; [done|]. by apply included_elem.
    + intros pre f post Hfs Hex Hself Hlast. rewrite Hfs in Hloop.
      destruct (reflectFields_entry _ _ _ _ (generateTypeSchema_grows env) Hex Hlast
                  _ _ _ _ _ _ Hloop) as (c0 & s & c1 & Hsub & Hs & Hin).
      rewrite (generateTypeSchema_reference env c0 pkg name) in Hs; [| done | | done].
      * by simplify_eq.
      * apply elem_of_dom, Hsub. rewrite dom_insert_L. set_solver.
  - intros c pkg name ft T Ht Hc Hp.
    by apply generateTypeSchema_reference.
Qed.

(** C5: a struct met for the first time reflects to an object whose
    property names are the external names of its non-excluded fields, in
    declaration order, and whose required list is the external names of
    the non-excluded fields that are neither omit-if-empty nor of pointer
    type, in declaration order.  So an excluded field contributes no
    property, and a field is in the required list exactly when it is
    neither excluded, nor omit-if-empty, nor a pointer.  The external name
    is the annotation's name when there is one, the declared name
    otherwise. *)
Theorem struct_schema_fields (c : Cache) (pkg name : string) :
  let fs := fieldsOf env pkg name in
  isTime pkg name = false →
  c !! getTypeName (TStruct pkg name) = None →
  ∃ ps rq c',
    generateTypeSchema env c (TStruct pkg name) = Some (SObject ps rq, c') ∧
    ps.*1 = firstOccurrences (externalName <$> included fs) ∧
    rq = externalName <$> List.filter isRequired (included fs) ∧
    (∀ n, n ∈ ps.*1 ↔
          ∃ f, f ∈ fs ∧ tag_excluded f = false ∧ externalName f = n) ∧
    (∀ n, n ∈ rq ↔
          ∃ f, f ∈ fs ∧ tag_excluded f = false ∧ tag_omitempty f = false ∧
               isPointer (field_Type f) = false ∧ externalName f = n) ∧
    (∀ f, externalName f =
            match tag_name f with Some n => n | None => field_Name f end).
Proof.
  intros fs Ht Hc.
  destruct (generateTypeSchema_struct env c pkg name Ht Hc) as (ps & rq & c2 & Hloop & Hgen).
  fold fs in Hloop.
  pose proof (reflectFields_names _ _ _ _ _ _ _ _ Hloop) as [Hnames Hreq].
  change (ps.*1 = firstOccurrences (externalName <$> included fs)) in Hnames.
  cbn in Hreq. eexists ps, rq, _. split; [exact Hgen|].
  split; [exact Hnames|]. split; [exact Hreq|]. repeat split.
  - rewrite Hnames. intros Hn.
    apply (proj1 (firstOccurrences_elem _ _)) in Hn.
    apply list_elem_of_fmap in Hn as (f & -> & [Hf Hex]%included_elem). eauto.
  - intros (f & Hf & Hex & <-). rewrite Hnames. apply firstOccurrences_elem.
    apply list_elem_of_fmap. exists f. split; [done|]. by apply included_elem.
  - rewrite Hreq. intros (f & -> & Hf)%list_elem_of_fmap.
    apply list_elem_of_In, filter_In in Hf as [[Hf Hex]%list_elem_of_In%included_elem Hr].
    unfold isRequired in Hr. apply negb_true_iff, orb_false_iff in Hr as [? ?].
    exists f. done.
  - intros (f & Hf & Hex & Hom & Hptr & <-). rewrite Hreq.
    apply list_elem_of_fmap. exists f. split; [done|].
    apply list_elem_of_In, filter_In. split.
    + apply list_elem_of_In, included_elem. done.
    + unfold isRequired. by rewrite Hom, Hptr.
Qed.

(** C6: on the shapes other than user structs reflection follows a fixed
    table and always answers: a pointer gives what its pointee gives;
    time.Time gives a string with format date-time; the integer kinds give
    integer, the float kinds number, bool boolean, string string; a slice
    or array gives an array whose items schema is what the element type
    gives; a string-keyed map of dynamic values gives an object with
    additionalProperties true; and every shape no rule matches gives the
    opaque object. *)
Theorem generateTypeSchema_mapping (c : Cache) :
  let gen := generateTypeSchema env in
  (∀ t, is_Some (gen c t)) ∧
  (∀ e, gen c (TPtr e) = gen c e) ∧
  gen c (TStruct "time" "Time") = Some (SPrim "string" (Some "date-time"), c) ∧
  Forall (λ k, gen c (TBasic k) = Some (SPrim "integer" None, c))
    [KInt; KInt8; KInt16; KInt32; KInt64;
     KUint; KUint8; KUint16; KUint32; KUint64] ∧
  Forall (λ k, gen c (TBasic k) = Some (SPrim "number" None, c))
    [KFloat32; KFloat64] ∧
  gen c (TBasic KBool) = Some (SPrim "boolean" None, c) ∧
  gen c (TBasic KString) = Some (SPrim "string" None, c) ∧
  (∀ e, gen c (TSlice e) = asArray <$> gen c e) ∧
  (∀ n e, gen c (TArray n e) = asArray <$> gen c e) ∧
  gen c (TMap (TBasic KString) TInterface) = Some (SMapAny, c) ∧
  (∀ v, v ≠ TInterface →
        gen c (TMap (TBasic KString) v) = asMapOf <$> gen c v) ∧
  (∀ t, unmatched t = true → gen c t = Some (SOpaque, c)).
Proof.
  cbn zeta. repeat apply conj.
  - apply generateTypeSchema_total.
  - intros e. by rewrite generateTypeSchema_unfold.
  - by rewrite generateTypeSchema_unfold.
  - repeat constructor; by rewrite generateTypeSchema_unfold.
  - repeat constructor; by rewrite generateTypeSchema_unfold.
  - by rewrite generateTypeSchema_unfold.
  - by rewrite generateTypeSchema_unfold.
  - intros e. rewrite generateTypeSchema_unfold. cbn [reflectType].
    by destruct (generateTypeSchema env c e) as [[s c']|].
  - intros n e. rewrite generateTypeSchema_unfold. cbn [reflectType].
    by destruct (generateTypeSchema env c e) as [[s c']|].
  - by rewrite generateTypeSchema_unfold.
  - intros v Hv. rewrite (generateTypeSchema_unfold _ _ (TMap _ _)). cbn [reflectType].
    destruct v; try done;
      by destruct (generateTypeSchema env c _) as [[s c']|].
  - intros t Hun. rewrite generateTypeSchema_unfold.
    destruct t as [[]| | | |[[]| | | | | | | |] ?| | | |]; cbn in Hun |- *;
      done.
Qed.

End ReflectorTheorems.

Section AssemblerTheorems.
Context `{TypeNaming} `{GoUnicode} `{YamlEncoder} (env : TypeEnv).

Import Reflector ReflectorSpec.

Lemma resolveInto_total (c : Cache) (ot : option GoType) :
  is_Some (resolveInto env c ot).
Proof.
  destruct ot as [t|]; cbn; [|eauto].
  destruct (c !! getTypeName t); [eauto|].
  destruct (generateTypeSchema_total env c t) as [[s c'] ->]. eauto.
Qed.

Lemma generateSchemas_total (rs : list RouteInfo) :
  ∀ c, is_Some (generateSchemas env c rs).
Proof.
  induction rs as [|r rs IH]; intros c; cbn; [eauto|].
  destruct (resolveInto_total c (RequestType r)) as [c1 ->].
  destruct (resolveInto_total c1 (ResponseType r)) as [c2 ->].
  apply IH.
Qed.

(** C4: with no routes the assembler returns an error whose text contains
    "no routes discovered"; with at least one route it returns the
    document text; so an error comes from the empty route list only. *)
Theorem GenerateSpec_validation :
  (∃ msg, GenerateSpec env [] = Some (inr msg) ∧
          GoStrings.Contains msg "no routes discovered" = true) ∧
  (∀ rs, rs ≠ [] → ∃ text, GenerateSpec env rs = Some (inl text)) ∧
  (∀ rs msg, GenerateSpec env rs = Some (inr msg) → rs = []).
Proof.
  assert (∀ rs, rs ≠ [] → ∃ text, GenerateSpec env rs = Some (inl text)) as Hok.
  { intros [|r rs] Hne; [done|]. unfold GenerateSpec.
    destruct (generateSchemas_total (r :: rs) ∅) as [c ->]. eauto. }
  repeat apply conj.
  - eexists. split; reflexivity.
  - exact Hok.
  - intros rs msg Herr. destruct rs as [|r rs]; [done|].
    destruct (Hok (r :: rs)) as [text Htext]; [done|]. congruence.
Qed.

End AssemblerTheorems.

(* ===================================================================== *)
(** * The statements on the types and routes of the tests *)
(* ===================================================================== *)

Section Instances.
#[local] Existing Instance asciiOnly.
#[local] Existing Instance shortNames.

Import GoStrings Spec PathsSpec Reflector ReflectorSpec Examples.

(** The identifier of the fifth example starts [createapi], not
    [createApi]: the first path fragment is not capitalised. *)
Lemma generateOperationID_admin_not_capitalised :
  generateOperationID (route0 "POST" "/api/v1/user-management/create-admin")
    ≠ "createApiV1UserManagementCreateAdmin".
Proof. vm_compute. discriminate. Qed.

Lemma buildResponses_table_witness :
  is_Some (buildResponses createUser !! "422") ∧
  buildResponses listUsers !! "422" = None.
Proof.
  split.
  - apply (buildResponses_table createUser). vm_compute. discriminate.
  - apply eq_None_not_Some. intros Hsome.
    destruct (buildResponses_table listUsers) as (_ & _ & _ & Hiff & _).
    apply Hiff in Hsome. apply Hsome. vm_compute. reflexivity.
Defined.

Lemma buildOperation_requestBody_witness :
  ∃ body, Op_RequestBody (buildOperation createUser) = Some body ∧
          RequestBody_Required body = true ∧
          RequestBody_Content body !! "application/json" =
            Some {| Schema := {| Ref := "#/components/schemas/TestRequest" |} |} ∧
          RequestBody_Description body = "Request body for Create user".
Proof.
  destruct (buildOperation_requestBody createUser) as [Hiff Hbody].
  destruct (proj2 Hiff) as [body Hb].
  { split; [by eexists | vm_compute; discriminate]. }
  exists body. split; [exact Hb|].
  destruct (Hbody body Hb) as (Hreq & (t & Ht & Hc) & Hd & _).
  cbn in Ht. injection Ht as <-. auto.
Defined.

Lemma buildPaths_table_witness :
  size (buildPaths testGenerator) = 2 ∧
  ∃ item, buildPaths testGenerator !! "/health" = Some item ∧
          is_Some (Get item) ∧ Post item = None ∧
          Put item = None ∧ Delete item = None.
Proof.
  destruct (buildPaths_table testGenerator) as (Hdom & Hsize & _ & _ & Honly).
  split; [rewrite Hsize; vm_compute; reflexivity|].
  destruct (proj2 (Hdom "/health")) as [item Hitem].
  { cbn. do 2 right. left. }
  exists item. split; [exact Hitem|].
  apply (Honly "/health" item Hitem).
  intros r Hr Hp. cbn in Hr.
  apply elem_of_cons in Hr as [->|Hr]; [discriminate|].
  apply elem_of_cons in Hr as [->|Hr]; [discriminate|].
  apply elem_of_cons in Hr as [->|Hr]; [vm_compute; reflexivity|].
  apply elem_of_nil in Hr. destruct Hr.
Defined.

Lemma buildOpenAPISpec_text_witness :
  @buildOpenAPISpec asciiOnly shortNames (fixedEncoder "openapi: 3.0.3") testGenerator =
    "# Auto-generated OpenAPI specification" +:+ nl +:+
    "# DO NOT EDIT MANUALLY - Changes will be overwritten" +:+ nl +:+
    nl +:+ "openapi: 3.0.3" ∧
  @buildOpenAPISpec asciiOnly shortNames (failingEncoder "cannot marshal") testGenerator =
    "# Error generating YAML: cannot marshal" +:+ nl.
Proof.
  split.
  - apply (@buildOpenAPISpec_text asciiOnly shortNames (fixedEncoder "openapi: 3.0.3")).
    reflexivity.
  - apply (@buildOpenAPISpec_text asciiOnly shortNames (failingEncoder "cannot marshal")
             testGenerator).
    reflexivity.
Defined.

Lemma buildPaths_unsupported_method_witness :
  supported patchItems = false ∧
  buildPathsOf [listUsers; patchItems] !! "/items" = Some emptyPathItem ∧
  size (buildPathsOf [listUsers; patchItems]) = 2.
Proof.
  assert (supported patchItems = false) as Hun by (vm_compute; reflexivity).
  split; [exact Hun|].
  destruct (buildPaths_unsupported_method patchItems Hun) as (_ & Hrs & _).
  destruct (Hrs [listUsers; patchItems]) as (Hlook & _ & _ & Hsize).
  - right. left.
  - intros r' Hr' Hp.
    apply elem_of_cons in Hr' as [->|Hr']; [discriminate|].
    apply elem_of_cons in Hr' as [->|Hr']; [vm_compute; reflexivity|].
    apply elem_of_nil in Hr'. destruct Hr'.
  - split; [exact Hlook | rewrite Hsize; vm_compute; reflexivity].
Defined.

Lemma reflect_cyclic_struct_witness :
  ∃ ps rq c',
    generateTypeSchema testEnv ∅ CircularStruct = Some (SObject ps rq, c') ∧
    c' !! "CircularStruct" = Some (SObject ps rq) ∧
    ps.*1 = ["name"; "self"] ∧
    ("self", SRef "#/components/schemas/CircularStruct") ∈ ps.
Proof.
  destruct (proj1 (proj2 (reflect_cyclic_struct testEnv)) ∅ "analyzer" "CircularStruct")
    as (ps & rq & c' & Hgen & Hc & Hnames & _ & Hself).
  - reflexivity.
  - apply lookup_empty.
  - exists ps, rq, c'. split; [exact Hgen|]. split; [exact Hc|].
    split; [exact Hnames|].
    apply (Hself [CircularStruct_Name] CircularStruct_Self []).
    + reflexivity.
    + reflexivity.
    + reflexivity.
    + cbn. apply not_elem_of_nil.
Defined.

Lemma struct_schema_fields_witness :
  ∃ ps rq c',
    generateTypeSchema testEnv ∅ TaggedStruct = Some (SObject ps rq, c') ∧
    ps.*1 = ["included_field"; "omit_empty"; "required_field"; "NoTagField"] ∧
    rq = ["included_field"; "required_field"; "NoTagField"].
Proof.
  destruct (struct_schema_fields testEnv ∅ "analyzer" "TaggedStruct")
    as (ps & rq & c' & Hgen & Hnames & Hreq & _).
  - reflexivity.
  - apply lookup_empty.
  - exists ps, rq, c'. auto.
Defined.

Lemma generateTypeSchema_mapping_witness :
  unmatched TFunc = true ∧
  generateTypeSchema testEnv ∅ TFunc = Some (SOpaque, ∅).
Proof.
  split; [reflexivity|].
  apply (generateTypeSchema_mapping testEnv ∅). reflexivity.
Defined.

Lemma GenerateSpec_validation_witness :
  testRoutes ≠ [] ∧
  ∃ text, @GenerateSpec shortNames testEnv asciiOnly (fixedEncoder "openapi: 3.0.3")
            testRoutes = Some (inl text).
Proof.
  assert (testRoutes ≠ []) as Hne by discriminate.
  split; [exact Hne|].
  apply (@GenerateSpec_validation shortNames asciiOnly (fixedEncoder "openapi: 3.0.3")
           testEnv); exact Hne.
Defined.

(** *** The model of the reflector on the cases of [generator_test.go] *)

Example test_TestGenerateTypeSchema_Struct :
  fst <$> generateTypeSchema testEnv ∅ TestRequest =
    Some (SObject [("name", SPrim "string" None);
                   ("count", SPrim "integer" None);
                   ("enabled", SPrim "boolean" None);
                   ("optional_val", SPrim "string" None)]
                  ["name"; "count"; "enabled"]).
Proof. vm_compute. reflexivity. Qed.

Example test_TestGenerateTypeSchema_TimeType :
  fst <$> generateTypeSchema testEnv ∅ (TStruct "time" "Time") =
    Some (SPrim "string" (Some "date-time")).
Proof. vm_compute. reflexivity. Qed.

Example test_TestGenerateTypeSchema_Array :
  fst <$> generateTypeSchema testEnv ∅ (TSlice (TBasic KString)) =
    Some (SArray (SPrim "string" None)).
Proof. vm_compute. reflexivity. Qed.

Example test_TestGenerateTypeSchema_Map :
  fst <$> generateTypeSchema testEnv ∅ (TMap (TBasic KString) TInterface) =
    Some SMapAny.
Proof. vm_compute. reflexivity. Qed.

Example test_TestGenerateTypeSchema_Pointer :
  fst <$> generateTypeSchema testEnv ∅ (TPtr (TBasic KString)) =
    Some (SPrim "string" None).
Proof. vm_compute. reflexivity. Qed.

Example test_TestCircularReferenceHandling :
  fst <$> generateTypeSchema testEnv ∅ CircularStruct =
    Some (SObject [("name", SPrim "string" None);
                   ("self", SRef "#/components/schemas/CircularStruct")]
                  ["name"]).
Proof. vm_compute. reflexivity. Qed.

Example test_TestJSONTagParsing :
  fst <$> generateTypeSchema testEnv ∅ TaggedStruct =
    Some (SObject [("included_field", SPrim "string" None);
                   ("omit_empty", SPrim "string" None);
                   ("required_field", SPrim "string" None);
                   ("NoTagField", SPrim "string" None)]
                  ["included_field"; "required_field"; "NoTagField"]).
Proof. vm_compute. reflexivity. Qed.

Example test_TestGetTypeName :
  shortTypeName <$> [TestRequest; TSlice (TBasic KString); TSlice TestResponse;
                     TBasic KString; TMap (TBasic KString) TInterface] =
    ["TestRequest"; "stringArray"; "TestResponseArray"; "string";
     "map[string]interface {}"].
Proof. vm_compute. reflexivity. Qed.

Example test_TestGenerateOperationID_list :
  generateOperationID (route0 "GET" "/list-users") = "listlistUsers".
Proof. vm_compute. reflexivity. Qed.

End Instances.


(* ===================================================================== *)
(** * Further properties of [spec.go] *)
(* ===================================================================== *)

Section AssemblerFacts.
Context `{GoUnicode} `{TypeNaming}.

Import GoStrings Spec PathsSpec RouteSpec.

(** X1: an operation that takes a request body also documents the 422
    response, and a GET operation has neither of the two. *)
Theorem requestBody_implies_422 (route : RouteInfo) :
  let operation := buildOperation route in
  (is_Some (Op_RequestBody operation) → is_Some (Responses operation !! "422")) ∧
  (isMethod "GET" route = true →
     Op_RequestBody operation = None ∧ Responses operation !! "422" = None).
Proof.
  cbn zeta. unfold buildOperation, isMethod; cbn [Op_RequestBody Responses].
  rewrite buildResponses_422.
  destruct (String.eqb (ToUpper (Method route)) "GET"); cbn.
  - split; [|by destruct (RequestType route)].
    destruct (RequestType route); by intros [? ?].
  - split; [eauto | discriminate].
Qed.

Lemma ToUpper_supported (m : string) :
  m ∈ ["GET"; "POST"; "PUT"; "DELETE"] → ToUpper m = m.
Proof.
  intros Hm. repeat (apply elem_of_cons in Hm as [->|Hm]; [vm_compute; reflexivity|]).
  apply elem_of_nil in Hm. destruct Hm.
Qed.

Lemma methodPrefix_upper (m : string) (r : RouteInfo) :
  m ∈ ["GET"; "POST"; "PUT"; "DELETE"] →
  isMethod m r = true → methodPrefix (withMethod m r) = methodPrefix r.
Proof.
  intros Hm E%String.eqb_eq. unfold methodPrefix.
  cbn [withMethod Method Path]. rewrite (ToUpper_supported m Hm), E.
  repeat (apply elem_of_cons in Hm as [->|Hm]; [reflexivity|]).
  apply elem_of_nil in Hm. destruct Hm.
Qed.

(** X2: the letter case of a supported method does not matter: a route
    whose method upper-cases to GET, POST, PUT or DELETE compiles to the
    same operation, and is filed in the same way, as the route with the
    method written in capitals. *)
Theorem method_case_is_ignored (m : string) (r : RouteInfo) :
  m ∈ ["GET"; "POST"; "PUT"; "DELETE"] →
  isMethod m r = true →
  buildOperation (withMethod m r) = buildOperation r ∧
  ∀ paths, addRoute paths (withMethod m r) = addRoute paths r.
Proof.
  intros Hm E.
  assert (ToUpper (Method (withMethod m r)) = ToUpper (Method r)) as Hup.
  { cbn [withMethod Method]. rewrite (ToUpper_supported m Hm).
    symmetry. by apply String.eqb_eq. }
  assert (buildOperation (withMethod m r) = buildOperation r) as Hop.
  { unfold buildOperation, generateOperationID, buildResponses, buildRequestBody.
    rewrite (methodPrefix_upper m r Hm E), Hup. reflexivity. }
  split; [exact Hop|].
  intros paths. unfold addRoute. rewrite Hop. unfold setSlot. rewrite Hup.
  reflexivity.
Qed.

Lemma buildPathsOf_app_lookup (rs rs' : list RouteInfo) (p : string) (item : PathItem) :
  buildPathsOf rs !! p = Some item →
  buildPathsOf (rs ++ rs') !! p = Some (slotsOf p (rs ++ rs')) ∧ item = slotsOf p rs.
Proof.
  rewrite !buildPathsOf_lookup, existsb_app.
  destruct (existsb (onPath p) rs); [|discriminate].
  intros [= <-]. done.
Qed.

Lemma lastOp_app_Some (m p : string) (rs rs' : list RouteInfo) :
  is_Some (lastOp m p rs) → is_Some (lastOp m p (rs ++ rs')).
Proof.
  intros [op (rs1 & r & rs2 & -> & Hm & _)%lastOp_Some].
  apply (lastOp_match _ _ _ r); [|exact Hm].
  rewrite <- app_assoc. apply elem_of_app. right. by left.
Qed.

(** X3: registering more routes never removes anything from the paths
    table: a path that has an entry keeps one, and each method slot that
    was filled stays filled (with the operation of the later route, if one
    takes the slot). *)
Theorem buildPaths_only_grows (rs rs' : list RouteInfo) (p : string) (item : PathItem) :
  buildPathsOf rs !! p = Some item →
  ∃ item', buildPathsOf (rs ++ rs') !! p = Some item' ∧
           (is_Some (Get item) → is_Some (Get item')) ∧
           (is_Some (Post item) → is_Some (Post item')) ∧
           (is_Some (Put item) → is_Some (Put item')) ∧
           (is_Some (Delete item) → is_Some (Delete item')).
Proof.
  intros [Hlook ->]%(buildPathsOf_app_lookup rs rs').
  eexists. split; [exact Hlook|].
  repeat split; cbn; apply lastOp_app_Some.
Qed.

Lemma filter_Permutation (f : RouteInfo → bool) (l l' : list RouteInfo) :
  l ≡ₚ l' → List.filter f l ≡ₚ List.filter f l'.
Proof.
  induction 1 as [|x l l' _ IH|x y l|l l' l'' _ IH1 _ IH2]; cbn.
  - done.
  - destruct (f x); [by constructor | done].
  - destruct (f x), (f y); try done. by constructor.
  - by etrans.
Qed.

Lemma filter_key_short (m p : string) (rs : list RouteInfo) :
  NoDup (routeKey <$> rs) → (length (List.filter (matchesSlot m p) rs) ≤ 1)%nat.
Proof.
  induction rs as [|r rs IH]; cbn; [lia|].
  intros [Hr Hnd]%NoDup_cons. specialize (IH Hnd).
  destruct (matchesSlot m p r) eqn:Hm; [|done]. cbn.
  destruct (List.filter (matchesSlot m p) rs) as [|r' l] eqn:Hf; [cbn; lia|].
  exfalso. apply Hr.
  assert (In r' (List.filter (matchesSlot m p) rs)) as Hin by (rewrite Hf; by left).
  apply filter_In in Hin as [Hin%list_elem_of_In Hm'].
  apply list_elem_of_fmap. exists r'. split; [|done].
  unfold matchesSlot, onPath, isMethod in Hm, Hm'.
  apply andb_true_iff in Hm as [Hp%String.eqb_eq Hu%String.eqb_eq].
  apply andb_true_iff in Hm' as [Hp'%String.eqb_eq Hu'%String.eqb_eq].
  unfold routeKey. congruence.
Qed.

Lemma lastOp_Permutation (m p : string) (rs rs' : list RouteInfo) :
  rs ≡ₚ rs' → NoDup (routeKey <$> rs) → lastOp m p rs = lastOp m p rs'.
Proof.
  intros Hperm Hnd. unfold lastOp.
  pose proof (filter_Permutation (matchesSlot m p) _ _ Hperm) as Hf.
  pose proof (filter_key_short m p rs Hnd) as Hlen.
  destruct (List.filter (matchesSlot m p) rs) as [|r [|r2 l]]; cbn in Hlen; [| |lia].
  - apply Permutation_nil_l in Hf. by rewrite Hf.
  - apply Permutation_singleton_l in Hf. by rewrite Hf.
Qed.

(** X4: when no two routes share a path and an (upper-cased) method, the
    paths table does not depend on the order in which the routes were
    registered. *)
Theorem buildPaths_order_irrelevant (rs rs' : list RouteInfo) :
  rs ≡ₚ rs' → NoDup (routeKey <$> rs) → buildPathsOf rs = buildPathsOf rs'.
Proof.
  intros Hperm Hnd. apply map_eq. intros p.
  rewrite !buildPathsOf_lookup.
  assert (existsb (onPath p) rs = existsb (onPath p) rs') as ->.
  { apply eq_true_iff_eq. rewrite !existsb_onPath. by rewrite Hperm. }
  destruct (existsb (onPath p) rs'); [|done].
  f_equal. unfold slotsOf. by rewrite !(lastOp_Permutation _ p rs rs').
Qed.

End AssemblerFacts.

(* ===================================================================== *)
(** * Facts about the string functions *)
(* ===================================================================== *)

Section StringFacts.

Import GoStrings RouteSpec.

Lemma append_cons (c : ascii) (a b : string) :
  String c a +:+ b = String c (a +:+ b).
Proof. reflexivity. Qed.

Lemma append_empty_l (b : string) : "" +:+ b = b.
Proof. reflexivity. Qed.

Lemma append_empty_r (s : string) : s +:+ "" = s.
Proof.
  induction s as [|c s IH]; [reflexivity|]. by rewrite append_cons, IH.
Qed.

Lemma append_assoc (a b c : string) : (a +:+ b) +:+ c = a +:+ (b +:+ c).
Proof.
  induction a as [|x a IH]; [reflexivity|]. by rewrite !append_cons, IH.
Qed.

Lemma length_append (a b : string) :
  String.length (a +:+ b) = (String.length a + String.length b)%nat.
Proof.
  induction a as [|c a IH]; [reflexivity|]. rewrite append_cons. cbn. by rewrite IH.
Qed.

Lemma all_bytes_app (P : ascii → bool) (a b : string) :
  all_bytes P (a +:+ b) = all_bytes P a && all_bytes P b.
Proof.
  induction a as [|c a IH]; [reflexivity|].
  rewrite append_cons. cbn. rewrite IH. apply andb_assoc.
Qed.

Lemma all_bytes_rev (P : ascii → bool) (s : string) :
  ∀ acc, all_bytes P (rev_string acc s) = all_bytes P acc && all_bytes P s.
Proof.
  induction s as [|c s IH]; intros acc; cbn.
  - by rewrite andb_true_r.
  - rewrite IH. cbn. destruct (P c), (all_bytes P acc), (all_bytes P s); reflexivity.
Qed.

Lemma all_bytes_trim_left (P : ascii → bool) (cutset s : string) :
  all_bytes P s = true → all_bytes P (trim_left cutset s) = true.
Proof.
  induction s as [|c s IH]; cbn; [auto|].
  intros [Hc Hs]%andb_true_iff. destruct (mem_byte c cutset); [auto|].
  cbn. by rewrite Hc, Hs.
Qed.

Lemma all_bytes_Trim (P : ascii → bool) (s cutset : string) :
  all_bytes P s = true → all_bytes P (Trim s cutset) = true.
Proof.
  intros Hs. unfold Trim. rewrite all_bytes_rev. cbn.
  apply all_bytes_trim_left. rewrite all_bytes_rev. cbn.
  by apply all_bytes_trim_left.
Qed.

(** The pieces of a split are made of bytes of the text. *)
Lemma split_scan_all (P : ascii → bool) (sep s : string) :
  ∀ skip cur,
    all_bytes P s = true → all_bytes P cur = true →
    Forall (λ x, all_bytes P x = true) (split_scan sep skip cur s).
Proof.
  induction s as [|c s IH]; intros skip cur Hs Hcur; cbn.
  - constructor; [|constructor]. rewrite all_bytes_rev. cbn. by rewrite Hcur.
  - cbn in Hs. apply andb_true_iff in Hs as [Hc Hs].
    destruct skip as [|k]; [|by apply IH].
    destruct (has_prefix sep (String c s)).
    + constructor; [|by apply IH]. rewrite all_bytes_rev. cbn. by rewrite Hcur.
    + apply IH; [done|]. cbn. by rewrite Hc, Hcur.
Qed.

(** The pieces of a split on one byte do not contain that byte. *)
Lemma split_byte_free (d : ascii) (s : string) :
  ∀ cur,
    all_bytes (notByte d) cur = true →
    Forall (λ x, all_bytes (notByte d) x = true) (split_scan (String d "") 0 cur s).
Proof.
  induction s as [|c s IH]; intros cur Hcur; cbn.
  - constructor; [|constructor]. rewrite all_bytes_rev. cbn. by rewrite Hcur.
  - destruct (Ascii.eqb d c) eqn:Hdc.
    + constructor; [|by apply IH]. rewrite all_bytes_rev. cbn. by rewrite Hcur.
    + apply IH. cbn. unfold notByte at 1. rewrite Ascii.eqb_sym, Hdc. exact Hcur.
Qed.

Lemma partByte_split (s : string) :
  all_bytes partByte s = all_bytes (notByte "/") s && all_bytes (notByte "-") s.
Proof.
  induction s as [|c s IH]; cbn; [reflexivity|]. rewrite IH. unfold partByte, notByte.
  destruct (Ascii.eqb c "/"), (Ascii.eqb c "-"),
    (all_bytes (λ c0, negb (Ascii.eqb c0 "/")) s),
    (all_bytes (λ c0, negb (Ascii.eqb c0 "-")) s); reflexivity.
Qed.

Lemma upper_byte_partByte (c : ascii) :
  partByte c = true → partByte (upper_byte c) = true.
Proof.
  destruct c as [[] [] [] [] [] [] [] []]; vm_compute; auto.
Qed.

Lemma title_from_partByte (s : string) :
  ∀ prev, all_bytes partByte s = true → all_bytes partByte (title_from prev s) = true.
Proof.
  induction s as [|c s IH]; intros prev; cbn; [auto|].
  intros [Hc Hs]%andb_true_iff. rewrite (IH c Hs), andb_true_r.
  destruct (isSeparator prev); [by apply upper_byte_partByte | exact Hc].
Qed.

Lemma Join_cons_empty (a : string) (l : list string) :
  Join (a :: l) "" = a +:+ Join l "".
Proof.
  destruct l as [|b l]; cbn; [by rewrite append_empty_r | reflexivity].
Qed.

Lemma all_bytes_Join (P : ascii → bool) (l : list string) :
  Forall (λ x, all_bytes P x = true) l → all_bytes P (Join l "") = true.
Proof.
  induction 1 as [|a l Ha _ IH]; [reflexivity|].
  rewrite Join_cons_empty, all_bytes_app, Ha, IH. reflexivity.
Qed.

Lemma has_prefix_app (a b : string) : has_prefix a (a +:+ b) = true.
Proof.
  induction a as [|c a IH]; [reflexivity|].
  rewrite append_cons. cbn. by rewrite Ascii.eqb_refl.
Qed.

Lemma rev_string_app (a b : string) :
  ∀ acc, rev_string acc (a +:+ b) = rev_string (rev_string acc a) b.
Proof.
  induction a as [|c a IH]; intros acc; [reflexivity|].
  rewrite append_cons. cbn. apply IH.
Qed.

Lemma trim_left_slash_snoc (p : string) :
  trim_left "/" (p +:+ "/") =
    match trim_left "/" p with
    | EmptyString => EmptyString
    | q => q +:+ "/"
    end.
Proof.
  induction p as [|c p IH]; [reflexivity|].
  rewrite append_cons. cbn.
  destruct (Ascii.eqb c "/"); cbn; [exact IH | reflexivity].
Qed.

Lemma Trim_slash_cons (p : string) : Trim ("/" +:+ p) "/" = Trim p "/".
Proof. reflexivity. Qed.

Lemma Trim_slash_snoc (p : string) : Trim (p +:+ "/") "/" = Trim p "/".
Proof.
  unfold Trim. rewrite trim_left_slash_snoc.
  destruct (trim_left "/" p) as [|c q]; [reflexivity|].
  rewrite rev_string_app. reflexivity.
Qed.

Lemma has_prefix_slash_snoc (sub : string) :
  all_bytes (notByte "/") sub = true →
  ∀ s, has_prefix sub (s +:+ "/") = has_prefix sub s.
Proof.
  induction sub as [|a sub IH]; [reflexivity|]. cbn.
  intros [Ha Hsub]%andb_true_iff s. destruct s as [|b s].
  - rewrite append_empty_l. cbn.
    unfold notByte in Ha. apply negb_true_iff in Ha. by rewrite Ha.
  - rewrite append_cons. cbn.
    destruct (Ascii.eqb a b); [by apply IH | reflexivity].
Qed.

Lemma Contains_slash_cons (sub p : string) :
  has_prefix sub ("/" +:+ p) = false → Contains ("/" +:+ p) sub = Contains p sub.
Proof.
  intros Hp. rewrite append_cons, append_empty_l in Hp |- *.
  cbn [Contains]. by rewrite Hp.
Qed.

Lemma Contains_slash_snoc (sub : string) :
  all_bytes (notByte "/") sub = true → sub ≠ "" →
  ∀ s, Contains (s +:+ "/") sub = Contains s sub.
Proof.
  intros Hfree Hne s. induction s as [|c s IH].
  - destruct sub as [|a sub]; [done|]. cbn in Hfree.
    apply andb_true_iff in Hfree as [Ha%negb_true_iff _]. unfold notByte in Ha.
    rewrite append_empty_l. cbn. by rewrite Ha.
  - rewrite append_cons. cbn [Contains]. rewrite IH.
    rewrite <- append_cons. by rewrite has_prefix_slash_snoc.
Qed.

End StringFacts.

(* ===================================================================== *)
(** * Further properties of the operation identifier *)
(* ===================================================================== *)

Section OperationIDFacts.
Context `{GoUnicode} `{TypeNaming}.

Import GoStrings Spec PathsSpec RouteSpec.

Lemma Title_partByte (x : string) :
  all_bytes is_ascii x = true → all_bytes partByte x = true →
  all_bytes partByte (Title x) = true.
Proof.
  intros Ha Hp. unfold Title. rewrite Ha. by apply title_from_partByte.
Qed.

Lemma Split_slash_segments (s : string) :
  all_bytes is_ascii s = true →
  Forall (λ x, all_bytes is_ascii x = true ∧ all_bytes (notByte "/") x = true)
    (Split s "/").
Proof.
  intros Ha. change (Split s "/") with (split_scan "/" 0 "" s).
  apply Forall_and. split.
  - by apply split_scan_all.
  - by apply split_byte_free.
Qed.

Lemma Split_hyphen_parts (s : string) :
  all_bytes is_ascii s = true → all_bytes (notByte "/") s = true →
  Forall (λ x, all_bytes is_ascii x = true ∧ all_bytes partByte x = true)
    (Split s "-").
Proof.
  intros Ha Hs. change (Split s "-") with (split_scan "-" 0 "" s).
  pose proof (split_scan_all is_ascii "-" s 0 "" Ha eq_refl) as H1.
  pose proof (split_scan_all (notByte "/") "-" s 0 "" Hs eq_refl) as H2.
  pose proof (split_byte_free "-" s "" eq_refl) as H3.
  revert H1 H2 H3. generalize (split_scan "-" 0 "" s). intros l H1.
  induction H1 as [|x l Hx _ IH]; intros H2 H3; [constructor|].
  apply Forall_cons in H2 as [Hx2 H2]. apply Forall_cons in H3 as [Hx3 H3].
  constructor; [|by apply IH].
  split; [exact Hx|]. by rewrite partByte_split, Hx2, Hx3.
Qed.

Lemma collectParts_parts (segments : list string) :
  Forall (λ x, all_bytes is_ascii x = true ∧ all_bytes (notByte "/") x = true)
    segments →
  Forall (λ x, all_bytes is_ascii x = true ∧ all_bytes partByte x = true)
    (collectParts segments).
Proof.
  induction 1 as [|x l [Ha Hs] _ IH]; cbn; [constructor|].
  destruct (String.eqb x ""); [exact IH|].
  apply Forall_app. split; [by apply Split_hyphen_parts | exact IH].
Qed.

Lemma addPathParts_partByte (parts : list string) :
  Forall (λ x, all_bytes is_ascii x = true ∧ all_bytes partByte x = true) parts →
  ∀ i, Forall (λ x, all_bytes partByte x = true) (addPathParts i parts).
Proof.
  induction 1 as [|x l [Ha Hp] _ IH]; intros i; cbn; [constructor|].
  destruct (String.eqb x ""); [apply IH|].
  constructor; [|apply IH].
  destruct (Nat.eqb i 0); [exact Hp | by apply Title_partByte].
Qed.

Lemma methodPrefix_supported (r : RouteInfo) :
  supported r = true →
  methodPrefix r ∈ ["list"; "get"; "create"; "post"; "update"; "delete"].
Proof.
  unfold supported, isMethod, methodPrefix. intros Hs.
  destruct (String.eqb (ToUpper (Method r)) "GET").
  { destruct (Contains (Path r) "list"); [left | right; left]. }
  destruct (String.eqb (ToUpper (Method r)) "POST").
  { destruct (Contains (Path r) "add" || Contains (Path r) "create");
      [do 2 right; left | do 3 right; left]. }
  destruct (String.eqb (ToUpper (Method r)) "PUT"); [do 4 right; left|].
  destruct (String.eqb (ToUpper (Method r)) "DELETE"); [do 5 right; left|].
  discriminate Hs.
Qed.

Lemma generateOperationID_unfold (r : RouteInfo) :
  generateOperationID r =
    methodPrefix r +:+
    Join (addPathParts 0 (collectParts (Split (Trim (Path r) "/") "/"))) "".
Proof. unfold generateOperationID. cbn zeta. apply Join_cons_empty. Qed.

(** X5: for a supported method and a path of ASCII text, the operation
    identifier is not empty, starts with the verb chosen for the method
    (list, get, create, post, update or delete), and contains neither a
    slash nor a hyphen. *)
Theorem operationID_is_identifier (r : RouteInfo) :
  supported r = true →
  all_bytes is_ascii (Path r) = true →
  generateOperationID r ≠ "" ∧
  methodPrefix r ∈ ["list"; "get"; "create"; "post"; "update"; "delete"] ∧
  has_prefix (methodPrefix r) (generateOperationID r) = true ∧
  all_bytes partByte (generateOperationID r) = true.
Proof.
  intros Hs Ha. pose proof (methodPrefix_supported r Hs) as Hverb.
  rewrite generateOperationID_unfold.
  assert (all_bytes partByte (methodPrefix r) = true ∧ methodPrefix r ≠ "") as [Hp Hne].
  { revert Hverb. generalize (methodPrefix r). intros v Hv.
    repeat (apply elem_of_cons in Hv as [->|Hv]; [split; [reflexivity | discriminate]|]).
    apply elem_of_nil in Hv. destruct Hv. }
  repeat split.
  - destruct (methodPrefix r) as [|c v]; [by destruct Hne|].
    rewrite append_cons. discriminate.
  - exact Hverb.
  - apply has_prefix_app.
  - rewrite all_bytes_app, Hp. cbn.
    apply all_bytes_Join, addPathParts_partByte, collectParts_parts,
      Split_slash_segments.
    by apply all_bytes_Trim.
Qed.

Lemma generateOperationID_path (r : RouteInfo) (p : string) :
  Trim p "/" = Trim (Path r) "/" →
  Contains p "list" = Contains (Path r) "list" →
  Contains p "add" = Contains (Path r) "add" →
  Contains p "create" = Contains (Path r) "create" →
  generateOperationID (withPath p r) = generateOperationID r.
Proof.
  intros Ht Hl Ha Hc. rewrite !generateOperationID_unfold.
  unfold methodPrefix. cbn [withPath Path Method].
  by rewrite Ht, Hl, Ha, Hc.
Qed.

Lemma two_paths (r : RouteInfo) (p : string) :
  p ≠ Path r → length (remove_dups (Path <$> [r; withPath p r])) = 2.
Proof.
  intros Hne. cbn [fmap list_fmap withPath Path]. cbn [remove_dups].
  destruct (decide_rel elem_of (Path r) [p]) as [Hin|_]; [|reflexivity].
  apply list_elem_of_singleton in Hin. by destruct Hne.
Qed.

(** X6: slashes around the path do not show in the operation identifier:
    a route whose path has one more slash in front, or at the end, gets the
    same identifier, although [buildPaths] files the two routes under
    different paths.  Identifiers are therefore not unique across paths. *)
Theorem operationID_ignores_outer_slashes (r : RouteInfo) :
  generateOperationID (withPath ("/" +:+ Path r) r) = generateOperationID r ∧
  generateOperationID (withPath (Path r +:+ "/") r) = generateOperationID r ∧
  size (buildPathsOf [r; withPath (Path r +:+ "/") r]) = 2 ∧
  size (buildPathsOf [r; withPath ("/" +:+ Path r) r]) = 2.
Proof.
  assert (∀ p : string, p +:+ "/" ≠ p) as Hsnoc.
  { intros p Hp. apply (f_equal String.length) in Hp.
    rewrite length_append in Hp. cbn in Hp. lia. }
  assert (∀ p : string, "/" +:+ p ≠ p) as Hcons.
  { intros p Hp. apply (f_equal String.length) in Hp.
    rewrite length_append in Hp. cbn in Hp. lia. }
  split; [|split; [|split]].
  - apply generateOperationID_path.
    + apply Trim_slash_cons.
    + by apply Contains_slash_cons.
    + by apply Contains_slash_cons.
    + by apply Contains_slash_cons.
  - apply generateOperationID_path.
    + apply Trim_slash_snoc.
    + by apply Contains_slash_snoc.
    + by apply Contains_slash_snoc.
    + by apply Contains_slash_snoc.
  - rewrite buildPathsOf_size. apply two_paths. exact (Hsnoc (Path r)).
  - rewrite buildPathsOf_size. apply two_paths. exact (Hcons (Path r)).
Qed.

End OperationIDFacts.

(* ===================================================================== *)
(** * Properties of the documentation handler *)
(* ===================================================================== *)

Section PrefixFacts.

Import GoStrings.

Lemma has_prefix_split (p s : string) :
  has_prefix p s = true → s = p +:+ drop_bytes (String.length p) s.
Proof.
  revert s. induction p as [|a p IH]; intros s; [reflexivity|].
  destruct s as [|b s]; cbn; [discriminate|].
  destruct (Ascii.eqb_spec a b) as [->|]; [|discriminate].
  intros Hp. rewrite append_cons. f_equal. by apply IH.
Qed.

Lemma TrimPrefix_cases (s p : string) :
  (has_prefix p s = true ∧ s = p +:+ TrimPrefix s p) ∨
  (has_prefix p s = false ∧ TrimPrefix s p = s).
Proof.
  unfold TrimPrefix. destruct (has_prefix p s) eqn:Hp; [left | right; done].
  split; [done|]. by apply has_prefix_split.
Qed.


(** Two dots in a path are still there once a leading [/docs] is cut. *)
Lemma TrimPrefix_docs_dotdot (s : string) :
  Contains s ".." = true → Contains (TrimPrefix s "/docs") ".." = true.
Proof.
  destruct (TrimPrefix_cases s "/docs") as [[_ E]|[_ ->]]; [|auto].
  generalize dependent (TrimPrefix s "/docs"). intros rest ->.
  rewrite !append_cons, append_empty_l. cbn. auto.
Qed.


End PrefixFacts.

Section DocsFacts.
Context `{GoUnicode} `{FileSystem} `{Config} `{SwaggerTemplate}.

Import GoStrings Docs.

Lemma method_gate (r : Request) :
  negb (String.eqb (Req_Method r) "GET") = false ↔ Req_Method r = "GET".
Proof. rewrite negb_false_iff. apply String.eqb_eq. Qed.

(** X7: [ServeDocs] never goes to the file system with a path that has two
    dots in a row: a GET request whose URL path contains [..] is answered
    400 "Invalid path", whatever files exist; and a file is only served for
    a GET request without [..] in its URL path, under the name
    [docs] joined with the rest of the path, when [os.Stat] does not report
    the file missing. *)
Theorem ServeDocs_no_traversal (h : DocsHandler) (r : Request) :
  (Req_Method r = "GET" → Contains (URL_Path r) ".." = true →
     ServeDocs h r = http_Error "Invalid path" 400) ∧
  (∀ name, ServeDocs h r = http_ServeFile name →
     Req_Method r = "GET" ∧
     Contains (URL_Path r) ".." = false ∧
     name = filepath_Join "docs" (TrimPrefix (TrimPrefix (URL_Path r) "/docs") "/") ∧
     os_Stat name ≠ StatNotExist).
Proof.
  split.
  - intros Hm%method_gate Hdots%TrimPrefix_docs_dotdot. unfold ServeDocs.
    rewrite Hm. cbn zeta. rewrite Hdots.
    destruct (TrimPrefix (URL_Path r) "/docs") as [|c [|c' rest]].
    + discriminate Hdots.
    + cbn -[Ascii.eqb] in Hdots. destruct (Ascii.eqb "." c); discriminate Hdots.
    + cbn -[Ascii.eqb]. destruct (Ascii.eqb c "/"); reflexivity.
  - intros name. unfold ServeDocs.
    destruct (negb (String.eqb (Req_Method r) "GET")) eqn:Hm; [discriminate|].
    apply method_gate in Hm. cbn zeta.
    destruct (String.eqb _ "" || String.eqb _ "/"); [discriminate|].
    destruct (Contains (TrimPrefix (URL_Path r) "/docs") "..") eqn:Hdots; [discriminate|].
    destruct (os_Stat _) eqn:Hstat; [| discriminate |]; intros [= <-].
    + repeat split; [exact Hm | | congruence].
      destruct (Contains (URL_Path r) "..") eqn:Hu; [|reflexivity].
      apply TrimPrefix_docs_dotdot in Hu. congruence.
    + repeat split; [exact Hm | | congruence].
      destruct (Contains (URL_Path r) "..") eqn:Hu; [|reflexivity].
      apply TrimPrefix_docs_dotdot in Hu. congruence.
Qed.


(** X9: [ServeOpenAPISpec] answers 200 exactly when the request is a GET,
    the spec file is not reported missing and can be read; the body is then
    the content of the file as read, served as YAML with the CORS header.
    A missing file gives 404, an unreadable one 500, another method 405;
    it never redirects nor hands over to the file server. *)
Theorem ServeOpenAPISpec_replies (h : DocsHandler) (r : Request) :
  let specPath := "docs/api/openapi.yaml" in
  (∀ header code body,
     ServeOpenAPISpec h r = Written header code body ↔
     Req_Method r = "GET" ∧ os_Stat specPath ≠ StatNotExist ∧
     os_ReadFile specPath = inl body ∧ code = 200 ∧
     header = {[ "Content-Type" := ["application/x-yaml"];
                 "Access-Control-Allow-Origin" := ["*"] ]}) ∧
  (∀ msg code,
     ServeOpenAPISpec h r = http_Error msg code →
     (code = 405 ∧ Req_Method r ≠ "GET") ∨
     (code = 404 ∧ Req_Method r = "GET" ∧ os_Stat specPath = StatNotExist) ∨
     (code = 500 ∧ Req_Method r = "GET" ∧ os_Stat specPath ≠ StatNotExist ∧
      ∃ err, os_ReadFile specPath = inr err)) ∧
  (∀ url code, ServeOpenAPISpec h r ≠ http_Redirect url code) ∧
  (∀ name, ServeOpenAPISpec h r ≠ http_ServeFile name).
Proof.
  cbn zeta. unfold ServeOpenAPISpec.
  assert (Header_Set "Access-Control-Allow-Origin" "*"
            (Header_Set "Content-Type" "application/x-yaml" ∅) =
          {[ "Content-Type" := ["application/x-yaml"];
             "Access-Control-Allow-Origin" := ["*"] ]}) as Hhdr.
  { unfold Header_Set. apply map_eq. intros k.
    destruct (decide (k = "Access-Control-Allow-Origin")) as [->|Hk1].
    { rewrite lookup_insert_eq, lookup_insert_ne by discriminate.
      by rewrite lookup_singleton_eq. }
    rewrite lookup_insert_ne by done.
    destruct (decide (k = "Content-Type")) as [->|Hk2].
    { by rewrite !lookup_insert_eq. }
    rewrite !lookup_insert_ne by done.
    rewrite lookup_empty. symmetry. by apply lookup_singleton_ne. }
  rewrite Hhdr. clear Hhdr.
  assert (Req_Method r = "GET" ∨ Req_Method r ≠ "GET") as [Hg|Hg]
    by (destruct (String.eqb_spec (Req_Method r) "GET"); auto).
  - rewrite (proj2 (method_gate r) Hg).
    destruct (os_Stat "docs/api/openapi.yaml") eqn:Hstat;
      destruct (os_ReadFile "docs/api/openapi.yaml") as [content|err] eqn:Hread;
      (split; [|split; [|split]]);
      try (intros ? ?; discriminate); try (intros ?; discriminate).
    all: try (intros header code body; split;
              [ intros Heq; try discriminate Heq; injection Heq as <- <- <-;
                repeat split; try assumption; discriminate
              | intros (_ & Hs & Hr & -> & ->); try discriminate Hr;
                try (by destruct Hs); injection Hr as <-; reflexivity ]).
    all: intros msg code Heq; try discriminate Heq; injection Heq as <- <-.
    + right. right. repeat split; [exact Hg | discriminate | eauto].
    + right. left. auto.
    + right. left. auto.
    + right. right. repeat split; [exact Hg | discriminate | eauto].
  - assert (negb (String.eqb (Req_Method r) "GET") = true) as ->.
    { apply negb_true_iff, String.eqb_neq, Hg. }
    split; [|split; [|split]].
    + intros header code body. split; [discriminate|]. intros (Hg' & _). by destruct Hg.
    + intros msg code [= <- <-]. left. auto.
    + intros url code. discriminate.
    + intros name. discriminate.
Qed.

Lemma requestHost_nonempty (r : Request) : requestHost r ≠ "".
Proof.
  unfold requestHost. destruct (String.eqb_spec (Req_Host r) "") as [_|Hne]; [|exact Hne].
  unfold fallbackHost. cbn zeta.
  destruct (String.eqb _ "0.0.0.0" || String.eqb _ ""); [discriminate|].
  destruct (config_GetString "server.host") as [|c s]; discriminate.
Qed.

(** X10: the base URL the Swagger page fetches the spec from is a scheme
    followed by a host that is never empty; the host is the request's own
    [Host] when it has one (the server configuration is then not read), and
    the scheme is [https://] exactly when the request came over TLS or one
    of the three forwarding headers says so. *)
Theorem swagger_baseURL (h : DocsHandler) (r : Request) :
  baseURL r = (if isHTTPS r then "https://" else "http://") +:+ requestHost r ∧
  requestHost r ≠ "" ∧
  (Req_Host r ≠ "" →
     requestHost r = Req_Host r ∧
     ∀ other : Config,
       @generateSwaggerHTML _ other _ h r = generateSwaggerHTML h r) ∧
  (has_prefix "https://" (baseURL r) = true ↔
     Req_TLS r = true ∨
     Header_Get (Req_Header r) "X-Forwarded-Proto" = "https" ∨
     Header_Get (Req_Header r) "X-Forwarded-Scheme" = "https" ∨
     ToLower (Header_Get (Req_Header r) "X-Forwarded-Ssl") = "on").
Proof.
  split; [by unfold baseURL; destruct (isHTTPS r)|].
  split; [apply requestHost_nonempty|].
  split.
  { intros Hne.
    assert (∀ C : Config, @requestHost C r = Req_Host r) as Hhost.
    { intros C. unfold requestHost.
      by destruct (String.eqb_spec (Req_Host r) ""). }
    split; [apply Hhost|].
    intros other. unfold generateSwaggerHTML, baseURL.
    by rewrite !Hhost. }
  assert (has_prefix "https://" (baseURL r) = isHTTPS r) as ->.
  { unfold baseURL. destruct (isHTTPS r); [apply has_prefix_app|].
    rewrite !append_cons. reflexivity. }
  unfold isHTTPS. rewrite !orb_true_iff, !String.eqb_eq. tauto.
Qed.


End DocsFacts.

Section DocsRoutesFacts.
Context `{GoUnicode} `{TypeNaming} `{FileSystem} `{Config} `{SwaggerTemplate}.

Import GoStrings Spec PathsSpec Docs.



End DocsRoutesFacts.

Section PageFacts.
Context `{GoUnicode} `{TypeNaming} `{FileSystem} `{Config} `{SwaggerTemplate}.

Import GoStrings Spec PathsSpec RouteSpec Docs.

Lemma Contains_prefix (s x : string) : has_prefix x s = true → Contains s x = true.
Proof. intros Hp. destruct s; cbn [Contains]; by rewrite Hp. Qed.

Lemma Contains_append_r (pre s x : string) :
  Contains s x = true → Contains (pre +:+ s) x = true.
Proof.
  intros Hs. induction pre as [|c pre IH]; [exact Hs|].
  rewrite append_cons. cbn [Contains]. rewrite IH. apply orb_true_r.
Qed.

Lemma Contains_middle (pre x post : string) :
  Contains (pre +:+ x +:+ post) x = true.
Proof. apply Contains_append_r, Contains_prefix, has_prefix_app. Qed.

(** X12: [ServeSwaggerUI] answers a GET with status 200 and an HTML page
    that carries the configured title, the theme's style sheet and the line
    telling the viewer to fetch the spec from [/docs/openapi.yaml] under the
    base URL of the request; any other method gets 405. *)
Theorem ServeSwaggerUI_page (h : DocsHandler) (r : Request) :
  (Req_Method r ≠ "GET" → ServeSwaggerUI h r = http_Error "Method not allowed" 405) ∧
  (Req_Method r = "GET" →
     ∃ body,
       ServeSwaggerUI h r =
         Written {[ "Content-Type" := ["text/html; charset=utf-8"] ]} 200 body ∧
       Contains body (Swagger_UITitle (swaggerConfig h)) = true ∧
       Contains body (getThemeCSS h) = true ∧
       Contains body ("url: '" +:+ baseURL r +:+ "/docs/openapi.yaml'") = true).
Proof.
  unfold ServeSwaggerUI. split.
  - intros Hne%String.eqb_neq. by rewrite Hne.
  - intros Hg%String.eqb_eq. rewrite Hg. cbn [negb]. cbn zeta.
    exists (generateSwaggerHTML h r). split.
    { unfold Header_Set. by rewrite insert_empty. }
    unfold generateSwaggerHTML. split; [apply Contains_middle|]. split.
    + do 3 apply Contains_append_r. apply Contains_prefix, has_prefix_app.
    + do 5 apply Contains_append_r. apply Contains_prefix.
      replace ("url: '" +:+ baseURL r +:+ "/docs/openapi.yaml'," +:+ tpl_after_url)
        with (("url: '" +:+ baseURL r +:+ "/docs/openapi.yaml'") +:+ "," +:+ tpl_after_url)
        by (rewrite !append_assoc; reflexivity).
      apply has_prefix_app.
Qed.

Lemma Trim_slashes (p : string) :
  all_bytes (λ c, Ascii.eqb c "/") p = true → Trim p "/" = "".
Proof.
  intros Hp. unfold Trim.
  assert (trim_left "/" p = "") as ->; [|reflexivity].
  induction p as [|c p IH]; [reflexivity|].
  cbn in Hp |- *. apply andb_true_iff in Hp as [-> Hp]. cbn. auto.
Qed.

(** X13: for the root path - and for the empty path or any path made of
    slashes only - the operation identifier is the bare verb of the method,
    so all such routes of one method share one identifier. *)
Theorem operationID_of_root (r : RouteInfo) :
  all_bytes (λ c, Ascii.eqb c "/") (Path r) = true →
  generateOperationID r = methodPrefix r.
Proof.
  intros Hp. rewrite generateOperationID_unfold, (Trim_slashes _ Hp).
  apply append_empty_r.
Qed.

End PageFacts.

Section ReferenceFacts.
Context `{GoUnicode} `{TypeNaming}.

Import GoStrings Spec PathsSpec RouteSpec.

Lemma jsonContent_inv (ref media : string) (mt : MediaTypeObject) :
  jsonContent ref !! media = Some mt →
  media = "application/json" ∧ Ref (Schema mt) = ref.
Proof.
  unfold jsonContent. intros [<- <-]%lookup_singleton_Some. done.
Qed.

Lemma buildResponses_content (route : RouteInfo) (code : string) (resp : Response) :
  buildResponses route !! code = Some resp →
  Response_Content resp = ∅ ∨
  ∃ name, Response_Content resp = jsonContent ("#/components/schemas/" +:+ name).
Proof.
  unfold buildResponses.
  assert (∀ m : gmap string Response,
            (∀ r, m !! code = Some r →
                  Response_Content r = ∅ ∨
                  ∃ name, Response_Content r = jsonContent ("#/components/schemas/" +:+ name)) →
            ∀ c d r,
              <[c := errorResponse d]> m !! code = Some r →
              Response_Content r = ∅ ∨
              ∃ name, Response_Content r = jsonContent ("#/components/schemas/" +:+ name))
    as Hstep.
  { intros m Hm c d r. destruct (decide (c = code)) as [->|Hne].
    - rewrite lookup_insert_eq. intros [= <-]. right. by exists "ErrorResponse".
    - rewrite lookup_insert_ne by done. apply Hm. }
  assert (∀ r,
            match ResponseType route with
            | Some t =>
                <["200" := {| Response_Description := "Success";
                              Response_Content :=
                                jsonContent ("#/components/schemas/" +:+ getTypeName t) |}]>
                  (∅ : gmap string Response)
            | None =>
                <["200" := {| Response_Description := "Success";
                              Response_Content := ∅ |}]> ∅
            end !! code = Some r →
            Response_Content r = ∅ ∨
            ∃ name, Response_Content r = jsonContent ("#/components/schemas/" +:+ name))
    as Hok.
  { intros r. destruct (ResponseType route) as [t|];
      (destruct (decide ("200" = code)) as [<-|Hne];
       [rewrite lookup_insert_eq; intros [= <-]; cbn; eauto
       |rewrite lookup_insert_ne, lookup_empty by done; discriminate]). }
  destruct (String.eqb (ToUpper (Method route)) "GET").
  - revert resp. apply Hstep, Hstep, Hok.
  - revert resp. apply Hstep, Hstep, Hstep, Hok.
Qed.

(** X14: every body an operation describes is JSON and points into the
    components table: in each response, and in the request body, the only
    media type is application/json and its schema reference starts with
    #/components/schemas/. *)
Theorem operation_references (route : RouteInfo) :
  let operation := buildOperation route in
  (∀ code resp media mt,
     Responses operation !! code = Some resp →
     Response_Content resp !! media = Some mt →
     media = "application/json" ∧
     has_prefix "#/components/schemas/" (Ref (Schema mt)) = true) ∧
  (∀ body media mt,
     Op_RequestBody operation = Some body →
     RequestBody_Content body !! media = Some mt →
     media = "application/json" ∧
     has_prefix "#/components/schemas/" (Ref (Schema mt)) = true).
Proof.
  cbn zeta. split.
  - intros code resp media mt Hresp Hmt. cbn [buildOperation Responses] in Hresp.
    apply buildResponses_content in Hresp as [Hempty|[name Hjson]].
    + rewrite Hempty, lookup_empty in Hmt. discriminate.
    + rewrite Hjson in Hmt. apply jsonContent_inv in Hmt as [-> ->].
      split; [reflexivity | apply has_prefix_app].
  - intros body media mt Hbody Hmt. cbn [buildOperation Op_RequestBody] in Hbody.
    unfold buildRequestBody in Hbody.
    destruct (RequestType route) as [t|]; [|discriminate].
    destruct (negb _); [|discriminate]. injection Hbody as <-.
    cbn [RequestBody_Content] in Hmt. apply jsonContent_inv in Hmt as [-> ->].
    split; [reflexivity | apply has_prefix_app].
Qed.

Lemma remove_dups_length (l : list string) :
  (length (remove_dups l) ≤ length l)%nat.
Proof.
  induction l as [|x l IH]; [done|]. cbn.
  destruct (decide_rel elem_of x l); cbn; lia.
Qed.

(** X15: the paths table never has more entries than there are routes, and
    it is empty only when the route list is empty. *)
Theorem buildPaths_size_bounds (rs : list RouteInfo) :
  (size (buildPathsOf rs) ≤ length rs)%nat ∧
  (buildPathsOf rs = ∅ ↔ rs = []).
Proof.
  split.
  - rewrite buildPathsOf_size.
    pose proof (remove_dups_length (Path <$> rs)) as Hl.
    by rewrite length_fmap in Hl.
  - split; [|by intros ->].
    destruct rs as [|r rs]; [done|]. intros Hempty. exfalso.
    assert (buildPathsOf (r :: rs) !! Path r = None) as Hnone
      by (by rewrite Hempty, lookup_empty).
    rewrite buildPathsOf_lookup in Hnone. cbn in Hnone.
    unfold onPath at 1 in Hnone. rewrite String.eqb_refl in Hnone. discriminate.
Qed.

End ReferenceFacts.

(* ===================================================================== *)
(** * The further statements on concrete routes and requests *)
(* ===================================================================== *)

Section MoreInstances.
Import GoStrings Spec PathsSpec RouteSpec Docs Examples.

#[local] Existing Instance asciiOnly.
#[local] Existing Instance shortNames.
#[local] Existing Instance defaultConfig.
#[local] Existing Instance plainTemplate.

Lemma requestBody_implies_422_witness :
  is_Some (Op_RequestBody (buildOperation createUser)) ∧
  is_Some (Responses (buildOperation createUser) !! "422").
Proof.
  assert (is_Some (Op_RequestBody (buildOperation createUser))) as Hbody
    by (eexists; reflexivity).
  split; [exact Hbody|].
  by apply (requestBody_implies_422 createUser).
Defined.

Lemma method_case_is_ignored_witness :
  buildOperation (withMethod "GET" (route0 "get" "/health")) =
  buildOperation (route0 "get" "/health").
Proof.
  apply (method_case_is_ignored "GET" (route0 "get" "/health")).
  - left.
  - vm_compute. reflexivity.
Defined.

Lemma buildPaths_only_grows_witness :
  ∃ item', buildPathsOf ([listUsers] ++ [createUser; health]) !! "/users" = Some item' ∧
           is_Some (Get item').
Proof.
  destruct (buildPaths_only_grows [listUsers] [createUser; health] "/users"
              (slotsOf "/users" [listUsers])) as (item' & Hlook & Hget & _).
  - rewrite buildPathsOf_lookup. reflexivity.
  - exists item'. split; [exact Hlook|]. apply Hget. eexists. reflexivity.
Defined.

Lemma buildPaths_order_irrelevant_witness :
  buildPathsOf [listUsers; createUser; health] =
  buildPathsOf [health; listUsers; createUser].
Proof.
  apply buildPaths_order_irrelevant.
  - apply (Permutation_app_comm [listUsers; createUser] [health]).
  - apply (bool_decide_unpack (NoDup (routeKey <$> [listUsers; createUser; health]))).
    vm_compute. exact I.
Defined.

Lemma operationID_is_identifier_witness :
  supported (route0 "POST" "/add-record") = true ∧
  all_bytes partByte (generateOperationID (route0 "POST" "/add-record")) = true.
Proof.
  assert (supported (route0 "POST" "/add-record") = true) as Hs
    by (vm_compute; reflexivity).
  split; [exact Hs|].
  apply (operationID_is_identifier (route0 "POST" "/add-record") Hs).
  vm_compute. reflexivity.
Defined.

Lemma operationID_of_root_witness :
  generateOperationID (route0 "GET" "/") = "get".
Proof.
  rewrite (operationID_of_root (route0 "GET" "/")); vm_compute; reflexivity.
Defined.

Lemma ServeDocs_no_traversal_witness :
  @ServeDocs (oneFile "docs/../secret" "x") NewDocsHandler
    (getRequest "/docs/../secret" "llm.local") = http_Error "Invalid path" 400.
Proof.
  apply (@ServeDocs_no_traversal (oneFile "docs/../secret" "x")).
  - reflexivity.
  - vm_compute. reflexivity.
Defined.

Lemma ServeOpenAPISpec_replies_witness :
  ∃ header,
    @ServeOpenAPISpec (oneFile "docs/api/openapi.yaml" "openapi: 3.0.3") NewDocsHandler
      (getRequest "/docs/openapi.yaml" "llm.local") = Written header 200 "openapi: 3.0.3".
Proof.
  eexists.
  apply (@ServeOpenAPISpec_replies (oneFile "docs/api/openapi.yaml" "openapi: 3.0.3")).
  split; [reflexivity|]. split; [vm_compute; discriminate|].
  split; [vm_compute; reflexivity|]. split; reflexivity.
Defined.

Lemma swagger_baseURL_witness :
  baseURL (getRequest "/swagger" "llm.local") = "http://llm.local" ∧
  @generateSwaggerHTML asciiOnly otherConfig plainTemplate NewDocsHandler
    (getRequest "/swagger" "llm.local") =
  generateSwaggerHTML NewDocsHandler (getRequest "/swagger" "llm.local").
Proof.
  destruct (swagger_baseURL NewDocsHandler (getRequest "/swagger" "llm.local"))
    as (Hurl & _ & Hhost & _).
  split; [rewrite Hurl; vm_compute; reflexivity|].
  apply (proj2 (Hhost ltac:(discriminate)) otherConfig).
Defined.

Lemma ServeSwaggerUI_page_witness :
  ∃ body,
    ServeSwaggerUI NewDocsHandler (getRequest "/swagger" "llm.local") =
      Written {[ "Content-Type" := ["text/html; charset=utf-8"] ]} 200 body ∧
    Contains body "url: 'http://llm.local/docs/openapi.yaml'" = true.
Proof.
  destruct (proj2 (ServeSwaggerUI_page NewDocsHandler (getRequest "/swagger" "llm.local")))
    as (body & Hreply & _ & _ & Hurl); [reflexivity|].
  exists body. split; [exact Hreply|].
  revert Hurl. vm_compute (baseURL _). auto.
Defined.

Lemma operation_references_witness :
  ∃ resp mt,
    Responses (buildOperation createUser) !! "200" = Some resp ∧
    Response_Content resp !! "application/json" = Some mt ∧
    has_prefix "#/components/schemas/" (Ref (Schema mt)) = true.
Proof.
  assert (∃ resp mt, Responses (buildOperation createUser) !! "200" = Some resp ∧
                     Response_Content resp !! "application/json" = Some mt)
    as (resp & mt & Hresp & Hmt) by (do 2 eexists; split; reflexivity).
  exists resp, mt. split; [exact Hresp|]. split; [exact Hmt|].
  apply (proj1 (operation_references createUser) "200" resp "application/json" mt Hresp Hmt).
Defined.


End MoreInstances.
